(** * Frontier exploration node: [custom_explorer/explorer.py]

    A shallow embedding of [ExplorerNode] (frontier detection, frontier
    selection and the periodic [explore] tick) and the properties of the
    exploration core that hold, or fail, on it. *)

From Stdlib Require Import ZArith QArith Lia String.
From stdpp Require Import gmap list sorting.

Local Open Scope Z_scope.

(** ** Python values the node works with *)

(** The exceptions the modelled code can raise. *)
Inductive exn := ValueError | IndexError | AttributeError | TypeError.

(** A computation that returns a value or raises. *)
Inductive result (A : Type) := Ok (a : A) | Raise (e : exn).
Arguments Ok {A} a.
Arguments Raise {A} e.

Definition rbind {A B} (x : result A) (k : A → result B) : result B :=
  match x with Ok a => k a | Raise e => Raise e end.

Notation "'let*' x := e 'in' k" := (rbind e (fun x => k))
  (at level 10, x name, e at level 100, k at level 200, only parsing).

(** [for x in l: s = body(s, x)], stopping at the first exception. *)
Fixpoint for_ {A S} (l : list A) (s : S) (body : S → A → result S) : result S :=
  match l with
  | [] => Ok s
  | x :: l' => let* s' := body s x in for_ l' s' body
  end.

(** [range(lo, hi)]. *)
Definition range (lo hi : Z) : list Z := seqZ lo (hi - lo).

(** Python floats, as far as [explore] uses them: conversion of an [int],
    literals, and the arithmetic of the goal computation. Adding a negated
    number is subtracting it (exact in IEEE 754 as in any field). *)
Class PyFloat (F : Type) := {
  of_int : Z → F;
  of_lit : Q → F;
  fadd : F → F → F;
  fsub : F → F → F;
  fmul : F → F → F;
  fneg : F → F;
  fadd_fneg : ∀ x y, fadd x (fneg y) = fsub x y
}.

(** Exact rational arithmetic is one model of the interface. *)
#[export] Instance Q_PyFloat : PyFloat Q := {|
  of_int := inject_Z;
  of_lit := fun q => q;
  fadd := Qplus;
  fsub := Qminus;
  fmul := Qmult;
  fneg := Qopp;
  fadd_fneg := fun x y => eq_refl
|}.

(** [np.sqrt n] for a Python [int] [n], and [float('inf')]. Only their order
    is used; on the non-negative integers [np.sqrt] is increasing, so two
    roots compare as their arguments do. *)
Inductive distance_t := Inf | Sqrt (n : Z).

Definition dist_ltb (d m : distance_t) : bool :=
  match d, m with
  | Sqrt a, Sqrt b => a <? b
  | Sqrt _, Inf => true
  | Inf, _ => false
  end.

(** ** Two-dimensional numpy arrays *)

(** An array of shape [(shape0, shape1)] over its row-major elements. *)
Record ndarray := { shape0 : Z; shape1 : Z; flat : list Z }.

(** [np.array(data).reshape((h, w))]: the sizes must agree. *)
Definition reshape (data : list Z) (h w : N) : result ndarray :=
  if Z.of_nat (length data) =? Z.of_N h * Z.of_N w
  then Ok {| shape0 := Z.of_N h; shape1 := Z.of_N w; flat := data |}
  else Raise ValueError.

(** The element at an index that is already within bounds. *)
Definition item (a : ndarray) (r c : Z) : Z :=
  default 0 (flat a !! Z.to_nat (r * shape1 a + c)).

(** An integer index along an axis of length [n]: negative indices count
    from the end, anything outside [-n, n) is an [IndexError]. *)
Definition norm_index (n i : Z) : result Z :=
  if (0 <=? i) && (i <? n) then Ok i
  else if (- n <=? i) && (i <? 0) then Ok (i + n)
  else Raise IndexError.

(** [a[r, c]]. *)
Definition getitem (a : ndarray) (r c : Z) : result Z :=
  let* r' := norm_index (shape0 a) r in
  let* c' := norm_index (shape1 a) c in
  Ok (item a r' c').

(** A slice bound along an axis of length [n] (as [slice.indices] clips). *)
Definition slice_bound (n i : Z) : Z :=
  if i <? 0 then Z.max (i + n) 0 else Z.min i n.

(** [a[r0:r1, c0:c1].flatten()]. *)
Definition getslice_flat (a : ndarray) (r0 r1 c0 c1 : Z) : list Z :=
  i ← range (slice_bound (shape0 a) r0) (slice_bound (shape0 a) r1);
  j ← range (slice_bound (shape1 a) c0) (slice_bound (shape1 a) c1);
  [item a i j].

(** [x in l] for a flattened array. *)
Definition contains (x : Z) (l : list Z) : bool := existsb (Z.eqb x) l.

(** ** Messages, effects and the node *)

(** A frontier is the tuple [(r, c, costmap_array[r, c])]. *)
Definition Frontier : Type := Z * Z * Z.

Definition f_row (f : Frontier) : Z := f.1.1.
Definition f_col (f : Frontier) : Z := f.1.2.
Definition f_cost (f : Frontier) : Z := f.2.

Section Node.
Context {F : Type} `{PyFloat F}.

(** [nav_msgs/OccupancyGrid], the fields the node reads. Width and height
    are unsigned in the message. *)
Record OccupancyGrid := {
  info_height : N;
  info_width : N;
  info_resolution : F;
  info_origin_x : F;
  info_origin_y : F;
  data : list Z
}.

(** What a callback does to the outside world. *)
Inductive effect :=
  | SendGoal (x y : F)      (* nav_to_pose_client.send_goal_async *)
  | DestroyNode             (* self.destroy_node() *)
  | RclpyShutdown.          (* rclpy.shutdown() *)

Definition is_shutdown (e : effect) : bool :=
  match e with RclpyShutdown => true | _ => false end.

(** The attributes of the node that the callbacks read or write. *)
Record ExplorerNode := {
  visited_frontiers : gset Frontier;
  map_data : option OccupancyGrid;
  costmap_data : option OccupancyGrid;
  robot_position : Z * Z
}.

(** State after a call, what it did, and how it ended. *)
Definition outcome : Type := ExplorerNode * list effect * result unit.

(** [__init__]. *)
Definition init : ExplorerNode := {|
  visited_frontiers := ∅;
  map_data := None;
  costmap_data := None;
  robot_position := (0, 0)
|}.

Definition map_callback (self : ExplorerNode) (msg : OccupancyGrid) : ExplorerNode :=
  {| visited_frontiers := visited_frontiers self;
     map_data := Some msg;
     costmap_data := costmap_data self;
     robot_position := robot_position self |}.

Definition costmap_callback (self : ExplorerNode) (msg : OccupancyGrid) : ExplorerNode :=
  {| visited_frontiers := visited_frontiers self;
     map_data := map_data self;
     costmap_data := Some msg;
     robot_position := robot_position self |}.

(** [navigate_to]: the goal is sent, the node is untouched. *)
Definition navigate_to (self : ExplorerNode) (x y : F) : outcome :=
  (self, [SendGoal x y], Ok ()).

(** [goal_response_callback] and [navigation_complete_callback] only log. *)
Definition goal_response_callback (self : ExplorerNode) (accepted : bool) : ExplorerNode :=
  self.

Definition navigation_complete_callback (self : ExplorerNode) : ExplorerNode :=
  self.

(** [np.sqrt((robot_row - r)**2 + (robot_col - c)**2)]. The argument is a
    Python [int]; [np.sqrt] takes it when it is below [2**64], as it is for
    the indices of any grid seen from (0, 0), and raises above. *)
Definition distance_from (robot : Z * Z) (r c : Z) : distance_t :=
  let '(robot_row, robot_col) := robot in
  Sqrt ((robot_row - r) ^ 2 + (robot_col - c) ^ 2).

(** [find_frontiers]. *)
Definition find_frontiers (self : ExplorerNode) (map_array costmap_array : ndarray)
  : result (list Frontier) :=
  let frontiers := [] in
  let rows := shape0 map_array in
  let cols := shape1 map_array in
  for_ (range 1 (rows - 1)) frontiers (fun frontiers r =>
    for_ (range 1 (cols - 1)) frontiers (fun frontiers c =>
      let distance := distance_from (robot_position self) r c in
      let* cell := getitem map_array r c in
      if cell =? 0 then
        let neighbors := getslice_flat map_array (r - 1) (r + 2) (c - 1) (c + 2) in
        if contains (-1) neighbors then
          let* cost := getitem costmap_array r c in
          Ok (frontiers ++ [(r, c, cost)])
        else Ok frontiers
      else Ok frontiers)).

(** One iteration of the loop of [choose_frontier] on the pair
    [(min_distance, chosen_frontier)]. *)
Definition choose_step (self : ExplorerNode) (st : distance_t * option Frontier)
  (frontier : Frontier) : distance_t * option Frontier :=
  let '(min_distance, chosen_frontier) := st in
  if bool_decide (frontier ∈ visited_frontiers self) then st
  else
    let distance := distance_from (robot_position self) (f_row frontier) (f_col frontier) in
    if (dist_ltb distance min_distance && negb (bool_decide (is_Some chosen_frontier)))
       || (match chosen_frontier with
           | Some chosen => f_cost frontier <=? f_cost chosen
           | None => false
           end)
    then (distance, Some frontier)
    else st.

(** [choose_frontier]: returns the chosen frontier (or [None]) and adds it
    to [visited_frontiers]. *)
Definition choose_frontier (self : ExplorerNode) (frontiers : list Frontier)
  : ExplorerNode * option Frontier :=
  let '(min_distance, chosen_frontier) := foldl (choose_step self) (Inf, None) frontiers in
  match chosen_frontier with
  | Some chosen =>
      ({| visited_frontiers := {[chosen]} ∪ visited_frontiers self;
          map_data := map_data self;
          costmap_data := costmap_data self;
          robot_position := robot_position self |}, Some chosen)
  | None => (self, None)
  end.

(** [shudown_robot] (the name is the source's). *)
Definition shudown_robot (self : ExplorerNode) : outcome :=
  (self, [DestroyNode; RclpyShutdown], Ok ()).

(** The names bound in the class body, the instance attributes set by
    [__init__], and the methods of [rclpy.node.Node] that the source uses
    ([rclpy.node.Node] has no attribute [shutdown_robot]). *)
Definition ExplorerNode_attrs : list string :=
  ["__init__"; "map_callback"; "costmap_callback"; "navigate_to";
   "goal_response_callback"; "navigation_complete_callback"; "find_frontiers";
   "choose_frontier"; "explore"; "shudown_robot";
   "map_sub"; "costmap_sub"; "nav_to_pose_client"; "visited_frontiers";
   "map_data"; "costmap_data"; "robot_position"; "timer";
   "get_logger"; "create_subscription"; "create_timer"; "get_clock";
   "destroy_node"]%string.

(** [getattr(self, name)()]: a name that is not an attribute raises
    [AttributeError]; the one attribute that takes no argument and does not
    re-enter the caller is [shudown_robot]. *)
Definition call_method (name : string) (self : ExplorerNode) : outcome :=
  if bool_decide (name ∈ ExplorerNode_attrs) then
    if String.eqb name "shudown_robot" then shudown_robot self
    else (self, [], Raise TypeError)
  else (self, [], Raise AttributeError).

(** [explore], the timer callback. *)
Definition explore (self : ExplorerNode) : outcome :=
  match map_data self with
  | None => (self, [], Ok ())
  | Some map_msg =>
    match costmap_data self with
    | None => (self, [], Ok ())
    | Some costmap_msg =>
      match reshape (data map_msg) (info_height map_msg) (info_width map_msg) with
      | Raise e => (self, [], Raise e)
      | Ok map_array =>
        match reshape (data costmap_msg) (info_height costmap_msg) (info_width costmap_msg) with
        | Raise e => (self, [], Raise e)
        | Ok costmap_array =>
          match find_frontiers self map_array costmap_array with
          | Raise e => (self, [], Raise e)
          | Ok frontiers =>
            match frontiers with
            | [] => call_method "shutdown_robot" self
            | _ :: _ =>
              match choose_frontier self frontiers with
              | (self', None) => (self', [], Ok ())
              | (self', Some chosen_frontier) =>
                let goal_x := fadd (fmul (of_int (f_col chosen_frontier)) (info_resolution map_msg))
                                   (info_origin_x map_msg) in
                let goal_y := fadd (fmul (of_int (f_row chosen_frontier)) (info_resolution map_msg))
                                   (info_origin_y map_msg) in
                navigate_to self' goal_x goal_y
              end
            end
          end
        end
      end
    end
  end.

(** What [rclpy.spin] delivers to the node. *)
Inductive event :=
  | MapMsg (msg : OccupancyGrid)
  | CostmapMsg (msg : OccupancyGrid)
  | TimerTick
  | GoalResponse (accepted : bool)
  | NavigationComplete.

Definition dispatch (self : ExplorerNode) (ev : event) : outcome :=
  match ev with
  | MapMsg msg => (map_callback self msg, [], Ok ())
  | CostmapMsg msg => (costmap_callback self msg, [], Ok ())
  | TimerTick => explore self
  | GoalResponse accepted => (goal_response_callback self accepted, [], Ok ())
  | NavigationComplete => (navigation_complete_callback self, [], Ok ())
  end.

(** [rclpy.spin]: callbacks run one after the other; an exception raised by
    a callback leaves the loop, and so does [rclpy.shutdown()]. *)
Fixpoint spin (self : ExplorerNode) (evs : list event) : outcome :=
  match evs with
  | [] => (self, [], Ok ())
  | ev :: evs' =>
    match dispatch self ev with
    | (self', effs, Raise e) => (self', effs, Raise e)
    | (self', effs, Ok _) =>
      if existsb is_shutdown effs then (self', effs, Ok ())
      else
        let '(self'', effs', r) := spin self' evs' in
        (self'', effs ++ effs', r)
    end
  end.

End Node.

Arguments OccupancyGrid F : clear implicits.
Arguments ExplorerNode F : clear implicits.
Arguments effect F : clear implicits.
Arguments event F : clear implicits.
Arguments outcome F : clear implicits.

(** ** Vocabulary of the properties *)

(** The interior of the map: every cell that has all of its 8 neighbours. *)
Definition interior (m : ndarray) (r c : Z) : Prop :=
  1 ≤ r ≤ shape0 m - 2 ∧ 1 ≤ c ≤ shape1 m - 2.

(** A frontier cell: an interior cell whose value is 0 and one of whose 8
    neighbours is -1. *)
Definition frontier_cell (m : ndarray) (r c : Z) : Prop :=
  interior m r c ∧ getitem m r c = Ok 0 ∧
  ∃ dr dc, -1 ≤ dr ≤ 1 ∧ -1 ≤ dc ≤ 1 ∧ (dr, dc) ≠ (0, 0) ∧
           getitem m (r + dr) (c + dc) = Ok (-1).

(** The two tests of the scan at a cell, as one boolean. *)
Definition is_frontier (m : ndarray) (r c : Z) : bool :=
  (item m r c =? 0)
  && contains (-1) (getslice_flat m (r - 1) (r + 2) (c - 1) (c + 2)).

(** What one iteration of the inner loop appends. *)
Definition cell_result (m cm : ndarray) (r c : Z) : result (list Frontier) :=
  if is_frontier m r c
  then let* cost := getitem cm r c in Ok [(r, c, cost)]
  else Ok [].

(** The lists appended along a loop, in order, up to the first exception. *)
Fixpoint collect {A B} (g : A → result (list B)) (l : list A) : result (list B) :=
  match l with
  | [] => Ok []
  | x :: l' => let* ys := g x in let* rest := collect g l' in Ok (ys ++ rest)
  end.

(** The cell of a frontier, and row-major order on cells. *)
Definition cell_of (f : Frontier) : Z * Z := f.1.

Definition cell_lt (a b : Z * Z) : Prop :=
  a.1 < b.1 ∨ (a.1 = b.1 ∧ a.2 < b.2).

(** What the loop of [choose_frontier] maintains once the frontiers [seen]
    have been looked at: nothing is chosen while every frontier seen is
    visited; otherwise the chosen one is unvisited, has been seen, and no
    unvisited frontier seen is cheaper. *)
Definition choose_inv {F} (self : ExplorerNode F) (seen : list Frontier)
    (st : distance_t * option Frontier) : Prop :=
  match st.2 with
  | None => st.1 = Inf ∧ ∀ g, g ∈ seen → g ∈ visited_frontiers self
  | Some f => f ∈ seen ∧ (f ∉ visited_frontiers self)
              ∧ ∀ g, g ∈ seen → g ∉ visited_frontiers self → f_cost f ≤ f_cost g
  end.

(** The policy of the specification for [select]: an unvisited frontier
    nearest to the robot, and cheapest among the nearest. *)
Definition nearest_unvisited {F} (self : ExplorerNode F) (frontiers : list Frontier)
    (f : Frontier) : Prop :=
  let d g := ((robot_position self).1 - f_row g) ^ 2
             + ((robot_position self).2 - f_col g) ^ 2 in
  f ∈ frontiers ∧ (f ∉ visited_frontiers self) ∧
  ∀ g, g ∈ frontiers → g ∉ visited_frontiers self →
       d f < d g ∨ (d f = d g ∧ f_cost f ≤ f_cost g).

(** Successive calls of [choose_frontier], one per list of frontiers. *)
Fixpoint select_session {F} (self : ExplorerNode F) (batches : list (list Frontier))
  : ExplorerNode F * list (option Frontier) :=
  match batches with
  | [] => (self, [])
  | frontiers :: rest =>
      let '(self', chosen) := choose_frontier self frontiers in
      let '(self'', results) := select_session self' rest in
      (self'', chosen :: results)
  end.

(** The frontiers that a session selected. *)
Definition selected (results : list (option Frontier)) : list Frontier :=
  omap id results.

(** ** Scenarios *)

Module Scenario.

(** The 5x5 map that is free everywhere except for the unknown cell (2, 2),
    a costmap of the same shape that is 0 everywhere, and a map without any
    unknown cell. *)
Definition map_cells : list Z :=
  [0; 0; 0; 0; 0;
   0; 0; 0; 0; 0;
   0; 0; -1; 0; 0;
   0; 0; 0; 0; 0;
   0; 0; 0; 0; 0].

Definition free_cells : list Z := replicate 25 0.

Definition grid (h w : N) (cells : list Z) : OccupancyGrid Q := {|
  info_height := h;
  info_width := w;
  info_resolution := 0.05%Q;
  info_origin_x := (- 1)%Q;
  info_origin_y := (- 1)%Q;
  data := cells
|}.

Definition map_array : ndarray := {| shape0 := 5; shape1 := 5; flat := map_cells |}.
Definition costmap_array : ndarray := {| shape0 := 5; shape1 := 5; flat := free_cells |}.

(** The 8 neighbours of (2, 2), in scan order. *)
Definition frontiers : list Frontier :=
  [(1, 1, 0); (1, 2, 0); (1, 3, 0); (2, 1, 0); (2, 3, 0); (3, 1, 0); (3, 2, 0); (3, 3, 0)].

(** A node that has received the map and the costmap. *)
Definition node_with (map_msg costmap_msg : OccupancyGrid Q) : ExplorerNode Q :=
  costmap_callback (map_callback init map_msg) costmap_msg.

Definition node_B : ExplorerNode Q :=
  node_with (grid 5 5 map_cells) (grid 5 5 free_cells).

Definition node_D : ExplorerNode Q :=
  node_with (grid 5 5 free_cells) (grid 5 5 free_cells).

(** A 3x3 map whose centre is a frontier cell, with a 4x4 costmap whose
    values are the flat indices. *)
Definition small_cells : list Z := [-1; 0; 0; 0; 0; 0; 0; 0; 0].
Definition wide_costs : list Z := seqZ 0 16.

Definition small_array : ndarray := {| shape0 := 3; shape1 := 3; flat := small_cells |}.
Definition wide_array : ndarray := {| shape0 := 4; shape1 := 4; flat := wide_costs |}.

Definition node_mismatch : ExplorerNode Q :=
  node_with (grid 3 3 small_cells) (grid 4 4 wide_costs).

(** The 5x5 map with a 3x3 costmap. *)
Definition node_small_costmap : ExplorerNode Q :=
  node_with (grid 5 5 map_cells) (grid 3 3 (replicate 9 0)).

End Scenario.

(** ** Vocabulary of the further properties *)

(** [f] is the last unvisited frontier of least cost in [frontiers]: no
    unvisited frontier before it is cheaper, every unvisited frontier after
    it costs more. *)
Definition last_min_cost {F} (self : ExplorerNode F) (frontiers : list Frontier)
    (f : Frontier) : Prop :=
  ∃ before after, frontiers = before ++ f :: after
    ∧ (f ∉ visited_frontiers self)
    ∧ (∀ g, g ∈ before → g ∉ visited_frontiers self → f_cost f ≤ f_cost g)
    ∧ (∀ g, g ∈ after → g ∉ visited_frontiers self → f_cost f < f_cost g).

(** The frontier cells of a map, as a comprehension in row-major order, and
    the tuple that the scan makes of a cell. *)
Definition frontier_cells (m : ndarray) : list (Z * Z) :=
  r ← range 1 (shape0 m - 1);
  c ← range 1 (shape1 m - 1);
  if is_frontier m r c then [(r, c)] else [].

Definition annotate (cm : ndarray) (rc : Z * Z) : Frontier :=
  (rc.1, rc.2, item cm rc.1 rc.2).

(** [np.sqrt] takes the squared distance of every frontier of the list from
    the robot: a Python [int] below [2**64]. *)
Definition sqrt_defined {F} (self : ExplorerNode F) (frontiers : list Frontier)
  : Prop :=
  ∀ f, f ∈ frontiers →
       ((robot_position self).1 - f_row f) ^ 2
       + ((robot_position self).2 - f_col f) ^ 2 < 2 ^ 64.

(** Goals among the effects, timer ticks among the events. *)
Definition is_goal {F} (e : effect F) : bool :=
  match e with SendGoal _ _ => true | _ => false end.



Module Cases.

(** A node away from the origin that has visited one of the frontiers of
    the 5x5 scenario, one that has visited them all, and one whose map
    message has fewer cells than its height and width say. *)
Definition node_at (robot : Z * Z) (visited : list Frontier) : ExplorerNode Q := {|
  visited_frontiers := list_to_set visited;
  map_data := Some (Scenario.grid 5 5 Scenario.map_cells);
  costmap_data := Some (Scenario.grid 5 5 Scenario.free_cells);
  robot_position := robot
|}.

Definition node_all_visited : ExplorerNode Q := node_at (0, 0) Scenario.frontiers.

Definition node_short_data : ExplorerNode Q :=
  Scenario.node_with (Scenario.grid 5 5 [0; 0; 0]) (Scenario.grid 5 5 Scenario.free_cells).

(** Frontiers with costs 2, 1, 3, 1. *)
Definition priced : list Frontier := [(1, 1, 2); (1, 2, 1); (1, 3, 3); (2, 1, 1)].

(** A 2x5 map: it has no interior. *)
Definition thin_array : ndarray := {| shape0 := 2; shape1 := 5; flat := replicate 10 (-1) |}.

End Cases.

(** * Properties *)

(** ** Arrays: indexing and slicing inside the bounds *)

Lemma elem_of_range lo hi k : k ∈ range lo hi ↔ lo ≤ k < hi.
Proof. unfold range. rewrite elem_of_seqZ. lia. Qed.

Lemma norm_index_Ok n i v :
  0 ≤ i → norm_index n i = Ok v ↔ i < n ∧ v = i.
Proof.
  intros Hi. unfold norm_index.
  destruct (Z.leb_spec 0 i), (Z.ltb_spec i n), (Z.leb_spec (- n) i),
    (Z.ltb_spec i 0); simpl; split; intros Hv;
    try lia; try discriminate; try (destruct Hv; lia).
  - injection Hv as <-. lia.
  - destruct Hv as [_ ->]. reflexivity.
Qed.

Lemma norm_index_Raise n i e :
  0 ≤ i → norm_index n i = Raise e ↔ n ≤ i ∧ e = IndexError.
Proof.
  intros Hi. unfold norm_index.
  destruct (Z.leb_spec 0 i), (Z.ltb_spec i n), (Z.leb_spec (- n) i),
    (Z.ltb_spec i 0); simpl; try lia;
    (split; [intros [= <-] || discriminate | intros [? ->]]); try done; lia.
Qed.

Lemma getitem_Ok a r c v :
  0 ≤ r → 0 ≤ c →
  getitem a r c = Ok v ↔ r < shape0 a ∧ c < shape1 a ∧ v = item a r c.
Proof.
  intros Hr Hc. unfold getitem, rbind.
  destruct (norm_index (shape0 a) r) as [r'|e] eqn:Er.
  - apply norm_index_Ok in Er as [? ->]; [|done].
    destruct (norm_index (shape1 a) c) as [c'|e] eqn:Ec.
    + apply norm_index_Ok in Ec as [? ->]; [|done].
      split; [intros [= <-]; done | intros (_ & _ & ->); done].
    + apply norm_index_Raise in Ec as [? ->]; [|done].
      split; [done | lia].
  - apply norm_index_Raise in Er as [? ->]; [|done]. split; [done | lia].
Qed.

Lemma getitem_Raise a r c e :
  0 ≤ r → 0 ≤ c →
  getitem a r c = Raise e ↔ e = IndexError ∧ (shape0 a ≤ r ∨ shape1 a ≤ c).
Proof.
  intros Hr Hc. unfold getitem, rbind.
  destruct (norm_index (shape0 a) r) as [r'|e'] eqn:Er.
  - apply norm_index_Ok in Er as [? ->]; [|done].
    destruct (norm_index (shape1 a) c) as [c'|e'] eqn:Ec.
    + apply norm_index_Ok in Ec as [? ->]; [|done]. split; [done | lia].
    + apply norm_index_Raise in Ec as [? ->]; [|done].
      split; [intros [= <-]; auto | intros [-> _]; done].
  - apply norm_index_Raise in Er as [? ->]; [|done].
    split; [intros [= <-]; auto | intros [-> _]; done].
Qed.

Lemma getitem_inside a r c :
  0 ≤ r < shape0 a → 0 ≤ c < shape1 a → getitem a r c = Ok (item a r c).
Proof. intros. apply getitem_Ok; lia. Qed.

Lemma contains_spec x l : contains x l = true ↔ x ∈ l.
Proof.
  unfold contains. rewrite existsb_exists, list_elem_of_In. split.
  - intros (y & Hy & Heq). apply Z.eqb_eq in Heq. by subst.
  - intros Hx. exists x. split; [done | apply Z.eqb_refl].
Qed.

(** Around an interior cell the slice is the full 3x3 block. *)
Lemma neighbors_spec a r c x :
  1 ≤ r ≤ shape0 a - 2 → 1 ≤ c ≤ shape1 a - 2 →
  x ∈ getslice_flat a (r - 1) (r + 2) (c - 1) (c + 2)
  ↔ ∃ i j, r - 1 ≤ i ≤ r + 1 ∧ c - 1 ≤ j ≤ c + 1 ∧ item a i j = x.
Proof.
  intros Hr Hc. unfold getslice_flat.
  assert (Hb : ∀ n k, 1 ≤ k ≤ n - 2 →
            slice_bound n (k - 1) = k - 1 ∧ slice_bound n (k + 2) = k + 2).
  { intros n k Hk. unfold slice_bound.
    destruct (Z.ltb_spec (k - 1) 0), (Z.ltb_spec (k + 2) 0); lia. }
  destruct (Hb _ _ Hr) as [-> ->]. destruct (Hb _ _ Hc) as [-> ->].
  rewrite list_elem_of_bind. split.
  - intros (i & Hx & Hi). apply list_elem_of_bind in Hx as (j & Hx & Hj).
    apply list_elem_of_singleton in Hx.
    apply elem_of_range in Hi. apply elem_of_range in Hj.
    exists i, j. repeat split; try lia; done.
  - intros (i & j & Hi & Hj & Hx). exists i. split.
    + apply list_elem_of_bind. exists j. split.
      * apply list_elem_of_singleton. done.
      * apply elem_of_range. lia.
    + apply elem_of_range. lia.
Qed.

(** ** Loops that append to a list *)

Lemma for_collect {A B} (l : list A) (body : list B → A → result (list B))
    (g : A → result (list B)) :
  (∀ acc x, x ∈ l → body acc x = let* ys := g x in Ok (acc ++ ys)) →
  ∀ acc, for_ l acc body = let* ys := collect g l in Ok (acc ++ ys).
Proof.
  induction l as [|x l IH]; intros Hbody acc; simpl.
  - by rewrite app_nil_r.
  - rewrite Hbody by left. destruct (g x) as [ys|e]; simpl; [|done].
    rewrite IH by (intros; apply Hbody; by right).
    destruct (collect g l) as [rest|e]; simpl; [|done].
    by rewrite app_assoc.
Qed.

Lemma collect_elem_of {A B} (g : A → result (list B)) l fs x :
  collect g l = Ok fs →
  x ∈ fs ↔ ∃ y ys, y ∈ l ∧ g y = Ok ys ∧ x ∈ ys.
Proof.
  revert fs. induction l as [|a l IH]; simpl; intros fs Hfs.
  - injection Hfs as <-. split; [by intros ?%elem_of_nil|].
    by intros (y & ys & ?%elem_of_nil & _).
  - destruct (g a) as [ys|e] eqn:Ea; simpl in Hfs; [|done].
    destruct (collect g l) as [rest|e] eqn:El; simpl in Hfs; [|done].
    injection Hfs as <-. rewrite elem_of_app, (IH rest eq_refl). split.
    + intros [Hx | (y & ys' & Hy & Hg & Hx)].
      * exists a, ys. split; [by left | done].
      * exists y, ys'. split; [by right | done].
    + intros (y & ys' & Hy & Hg & Hx).
      apply elem_of_cons in Hy as [-> | Hy].
      * left. congruence.
      * right. eauto.
Qed.

Lemma collect_total {A B} (g : A → result (list B)) l :
  (∀ y, y ∈ l → ∃ ys, g y = Ok ys) → ∃ fs, collect g l = Ok fs.
Proof.
  induction l as [|a l IH]; simpl; intros Hg; [by eexists|].
  destruct (Hg a) as [ys ->]; [by left|].
  destruct IH as [rest ->]; [intros; apply Hg; by right|].
  by eexists.
Qed.

Lemma collect_Raise {A B} (g : A → result (list B)) l e :
  collect g l = Raise e → ∃ y, y ∈ l ∧ g y = Raise e.
Proof.
  induction l as [|a l IH]; simpl; [done|].
  destruct (g a) as [ys|e'] eqn:Ea; simpl.
  - destruct (collect g l) as [rest|e'] eqn:El; simpl; [done|].
    intros [= ->]. destruct IH as (y & Hy & Hg); [done|].
    exists y. split; [by right | done].
  - intros [= ->]. exists a. split; [by left | done].
Qed.

Lemma collect_Raise_intro {A B} (g : A → result (list B)) l y e :
  y ∈ l → g y = Raise e → ∃ e', collect g l = Raise e'.
Proof.
  induction l as [|a l IH]; simpl; intros Hy Hg; [by apply elem_of_nil in Hy|].
  apply elem_of_cons in Hy as [<- | Hy].
  - rewrite Hg. by eexists.
  - destruct (g a); simpl; [|by eexists].
    destruct (IH Hy Hg) as [e' ->]. by eexists.
Qed.

Lemma collect_sorted {A B} (RA : relation A) (RB : relation B)
    (g : A → result (list B)) l fs :
  collect g l = Ok fs →
  StronglySorted RA l →
  (∀ y ys, y ∈ l → g y = Ok ys → StronglySorted RB ys) →
  (∀ y1 y2 ys1 ys2 x1 x2, RA y1 y2 → g y1 = Ok ys1 → g y2 = Ok ys2 →
     x1 ∈ ys1 → x2 ∈ ys2 → RB x1 x2) →
  StronglySorted RB fs.
Proof.
  intros Hfs Hl Hin Hcross. revert fs Hfs.
  induction Hl as [|a l Hl IH Ha]; simpl; intros fs Hfs.
  - injection Hfs as <-. constructor.
  - destruct (g a) as [ys|e] eqn:Ea; simpl in Hfs; [|done].
    destruct (collect g l) as [rest|e] eqn:El; simpl in Hfs; [|done].
    injection Hfs as <-. apply StronglySorted_app_2.
    + intros x1 x2 Hx1 Hx2.
      apply (collect_elem_of _ _ _ _ El) in Hx2 as (y & ys' & Hy & Hg & Hx2).
      rewrite Forall_forall in Ha.
      eapply Hcross; [apply Ha, Hy | done..].
    + apply (Hin a); [by left | done].
    + apply IH; [|done]. intros; eapply Hin; [by right | done].
Qed.

Lemma range_sorted lo hi : StronglySorted Z.lt (range lo hi).
Proof.
  unfold range. destruct (Z.le_gt_cases (hi - lo) 0) as [Hle | Hgt].
  - rewrite seqZ_nil by done. constructor.
  - rewrite <- (Z2Nat.id (hi - lo)) by lia.
    induction (Z.to_nat (hi - lo)) as [|n IH]; [constructor|].
    rewrite seqZ_S. apply StronglySorted_app_2; [|done|repeat constructor].
    intros x1 x2 Hx1%elem_of_seqZ ->%list_elem_of_singleton. lia.
Qed.

Lemma sorted_lookup {A} (R : relation A) (l : list A) i j x y :
  StronglySorted R l → (i < j)%nat → l !! i = Some x → l !! j = Some y → R x y.
Proof.
  intros Hl. revert i j. induction Hl as [|a l Hl IH Ha]; intros i j Hij Hi Hj.
  - by rewrite lookup_nil in Hi.
  - destruct j as [|j]; [lia|]. destruct i as [|i]; simpl in *.
    + injection Hi as <-. rewrite Forall_forall in Ha.
      apply Ha. by eapply list_elem_of_lookup_2.
    + apply (IH i j); [lia | done..].
Qed.

Lemma sorted_NoDup {A} (R : relation A) (l : list A) :
  (∀ x, ¬ R x x) → StronglySorted R l → NoDup l.
Proof.
  intros Hirr. induction 1 as [|a l Hl IH Ha]; constructor; [|done].
  rewrite Forall_forall in Ha. intros Hin. by apply (Hirr a), Ha.
Qed.

(** ** [find_frontiers]: the scan *)

Lemma is_frontier_spec m r c :
  interior m r c → is_frontier m r c = true ↔ frontier_cell m r c.
Proof.
  intros [Hr Hc]. unfold is_frontier, frontier_cell.
  rewrite andb_true_iff, Z.eqb_eq, contains_spec, neighbors_spec by done.
  rewrite getitem_Ok by lia. split.
  - intros (H0 & i & j & Hi & Hj & Hij). split; [done|]. split; [lia|].
    exists (i - r), (j - c). repeat split; try lia.
    + intros [= Hdr Hdc].
      assert (i = r) as -> by lia. assert (j = c) as -> by lia. lia.
    + replace (r + (i - r)) with i by lia. replace (c + (j - c)) with j by lia.
      apply getitem_Ok; lia.
  - intros (_ & (_ & _ & H0) & dr & dc & Hdr & Hdc & _ & Hn).
    split; [done|]. apply getitem_Ok in Hn as (_ & _ & Hn); [|lia..].
    exists (r + dr), (c + dc). repeat split; try lia; done.
Qed.

Section Detection.
Context {F : Type}.
Implicit Types (self : ExplorerNode F) (m cm : ndarray) (fs : list Frontier).

(** The two nested loops append, cell after cell in row-major order, what
    [cell_result] gives. *)
Lemma find_frontiers_collect self m cm :
  find_frontiers self m cm
  = collect (λ r, collect (cell_result m cm r) (range 1 (shape1 m - 1)))
            (range 1 (shape0 m - 1)).
Proof.
  unfold find_frontiers.
  rewrite (for_collect _ _
    (λ r, collect (cell_result m cm r) (range 1 (shape1 m - 1)))).
  { by destruct (collect _ _). }
  intros acc r Hr%elem_of_range.
  apply (for_collect _ _ (cell_result m cm r)).
  intros acc' c Hc%elem_of_range.
  unfold cell_result, is_frontier. rewrite getitem_inside by lia. simpl.
  destruct (item m r c =? 0); simpl; [|by rewrite app_nil_r].
  destruct (contains _ _); simpl; [|by rewrite app_nil_r].
  by destruct (getitem cm r c).
Qed.

Lemma cell_result_elem_of m cm r c ys f :
  interior m r c → cell_result m cm r c = Ok ys →
  f ∈ ys ↔ frontier_cell m r c ∧ cell_of f = (r, c)
           ∧ getitem cm r c = Ok (f_cost f).
Proof.
  intros Hin. unfold cell_result.
  destruct (is_frontier m r c) eqn:Eb.
  - apply is_frontier_spec in Eb; [|done].
    destruct (getitem cm r c) as [cost|e]; simpl; [|done].
    intros [= <-]. rewrite list_elem_of_singleton. destruct f as [[r' c'] v].
    unfold cell_of, f_cost; simpl. split.
    + intros [= -> -> ->]. done.
    + intros (_ & [= -> ->] & [= ->]). done.
  - intros [= <-]. split; [by intros ?%elem_of_nil|].
    intros (Hf%is_frontier_spec & _); [congruence | done].
Qed.

Lemma find_frontiers_elem_of self m cm fs f :
  find_frontiers self m cm = Ok fs →
  f ∈ fs ↔ frontier_cell m (f_row f) (f_col f)
           ∧ getitem cm (f_row f) (f_col f) = Ok (f_cost f).
Proof.
  rewrite find_frontiers_collect. intros Hfs.
  rewrite (collect_elem_of _ _ _ _ Hfs). split.
  - intros (r & ys & Hr%elem_of_range & Hys & Hf).
    apply (collect_elem_of _ _ _ _ Hys) in Hf as (c & ys' & Hc%elem_of_range & Hys' & Hf).
    assert (Hin : interior m r c) by (split; lia).
    apply (cell_result_elem_of _ _ _ _ _ _ Hin Hys') in Hf
      as (Hcell & Hrc & Hcost).
    destruct f as [[r' c'] v]. injection Hrc as -> ->. done.
  - intros [Hcell Hcost]. pose proof Hcell as [Hin _].
    pose proof Hin as [Hr Hc].
    destruct (collect_total (cell_result m cm (f_row f)) (range 1 (shape1 m - 1)))
      as [ys Hys].
    { intros c' Hc'%elem_of_range. unfold cell_result.
      destruct (is_frontier _ _ _) eqn:Eb; [|by eexists].
      destruct (getitem cm (f_row f) c') as [v|e] eqn:Ev; [by eexists|].
      exfalso.
      destruct (collect_Raise_intro (cell_result m cm (f_row f))
                  (range 1 (shape1 m - 1)) c' e) as [e' He'].
      { apply elem_of_range. lia. }
      { unfold cell_result. by rewrite Eb, Ev. }
      destruct (collect_Raise_intro
        (λ r, collect (cell_result m cm r) (range 1 (shape1 m - 1)))
        (range 1 (shape0 m - 1)) (f_row f) e') as [e'' He''];
        [apply elem_of_range; lia | done | congruence]. }
    exists (f_row f), ys. split; [apply elem_of_range; lia|]. split; [done|].
    apply (collect_elem_of _ _ _ _ Hys).
    destruct (cell_result m cm (f_row f) (f_col f)) as [ys'|e] eqn:Ec.
    + exists (f_col f), ys'. split; [apply elem_of_range; lia|]. split; [done|].
      apply (cell_result_elem_of _ _ _ _ _ _ Hin Ec).
      by destruct f as [[??]?].
    + unfold cell_result in Ec.
      rewrite (proj2 (is_frontier_spec _ _ _ Hin) Hcell), Hcost in Ec.
      done.
Qed.

Lemma find_frontiers_sorted self m cm fs :
  find_frontiers self m cm = Ok fs →
  StronglySorted cell_lt (cell_of <$> fs).
Proof.
  rewrite find_frontiers_collect. intros Hfs.
  apply (StronglySorted_fmap _ (λ f g, cell_lt (cell_of f) (cell_of g))); [done|].
  assert (Hcell : ∀ r c ys f, cell_result m cm r c = Ok ys → f ∈ ys →
            cell_of f = (r, c)).
  { intros r c ys f. unfold cell_result.
    destruct (is_frontier _ _ _); [|by intros [= <-] ?%elem_of_nil].
    destruct (getitem cm r c); simpl; [|done].
    by intros [= <-] ->%list_elem_of_singleton. }
  eapply (collect_sorted Z.lt); [done | apply range_sorted | |].
  - intros r ys _ Hys. simpl in Hys.
    eapply (collect_sorted Z.lt); [exact Hys | apply range_sorted | |].
    + intros c ys' _. unfold cell_result.
      destruct (is_frontier _ _ _); [|intros [= <-]; constructor].
      destruct (getitem cm r c); simpl; [|done].
      intros [= <-]. repeat constructor.
    + intros c1 c2 ys1 ys2 x1 x2 Hlt H1 H2 Hx1 Hx2.
      rewrite (Hcell _ _ _ _ H1 Hx1), (Hcell _ _ _ _ H2 Hx2).
      right. simpl. lia.
  - intros r1 r2 ys1 ys2 x1 x2 Hlt H1 H2 Hx1 Hx2. simpl in H1, H2.
    apply (collect_elem_of _ _ _ _ H1) in Hx1 as (c1 & ys1' & _ & H1' & Hx1).
    apply (collect_elem_of _ _ _ _ H2) in Hx2 as (c2 & ys2' & _ & H2' & Hx2).
    rewrite (Hcell _ _ _ _ H1' Hx1), (Hcell _ _ _ _ H2' Hx2).
    left. simpl. lia.
Qed.

Lemma cell_lt_irrefl rc : ¬ cell_lt rc rc.
Proof. unfold cell_lt. lia. Qed.

(** An exception of the scan is the [IndexError] of reading the costmap at a
    frontier cell that it does not have. *)
Lemma find_frontiers_Raise self m cm e :
  find_frontiers self m cm = Raise e →
  e = IndexError ∧
  ∃ r c, frontier_cell m r c ∧ (shape0 cm ≤ r ∨ shape1 cm ≤ c).
Proof.
  rewrite find_frontiers_collect.
  intros (r & Hr%elem_of_range & (c & Hc%elem_of_range & Hcell)%collect_Raise)%collect_Raise.
  unfold cell_result in Hcell. destruct (is_frontier m r c) eqn:Eb; [|done].
  apply is_frontier_spec in Eb; [|split; lia].
  destruct (getitem cm r c) as [v|e'] eqn:Ev; simpl in Hcell; [done|].
  injection Hcell as ->. apply getitem_Raise in Ev as [-> Hout]; [|lia..].
  split; [done|]. by exists r, c.
Qed.

Lemma find_frontiers_Raise_intro self m cm r c :
  frontier_cell m r c → shape0 cm ≤ r ∨ shape1 cm ≤ c →
  find_frontiers self m cm = Raise IndexError.
Proof.
  intros Hcell Hout. pose proof Hcell as [Hin _]. pose proof Hin as [Hr Hc].
  assert (∃ e, find_frontiers self m cm = Raise e) as [e He].
  { rewrite find_frontiers_collect.
    destruct (collect_Raise_intro (cell_result m cm r)
                (range 1 (shape1 m - 1)) c IndexError) as [e' He'].
    { apply elem_of_range. lia. }
    { unfold cell_result.
      rewrite (proj2 (is_frontier_spec _ _ _ Hin) Hcell).
      assert (getitem cm r c = Raise IndexError) as ->; [|done].
      apply getitem_Raise; [lia.. | done]. }
    eapply collect_Raise_intro; [|exact He']. apply elem_of_range. lia. }
  rewrite He. by destruct (find_frontiers_Raise _ _ _ _ He) as [-> _].
Qed.

End Detection.

(** ** [choose_frontier]: the selection loop *)

Section Selection.
Context {F : Type}.
Implicit Types (self : ExplorerNode F) (fs : list Frontier) (f g : Frontier).

Lemma choose_step_inv self seen st f :
  choose_inv self seen st → choose_inv self (seen ++ [f]) (choose_step self st f).
Proof.
  destruct st as [min_distance [chosen|]]; unfold choose_inv, choose_step; simpl.
  - intros (Hseen & Hunv & Hmin). case_bool_decide as Hv; simpl.
    + split; [set_solver|]. split; [done|].
      intros g [Hg | ->%list_elem_of_singleton]%elem_of_app ?; [auto | done].
    + rewrite andb_false_r. simpl.
      destruct (Z.leb_spec (f_cost f) (f_cost chosen)); simpl.
      * split; [set_solver|]. split; [done|].
        intros g [Hg | ->%list_elem_of_singleton]%elem_of_app Hg'; [|lia].
        specialize (Hmin g Hg Hg'). lia.
      * split; [set_solver|]. split; [done|].
        intros g [Hg | ->%list_elem_of_singleton]%elem_of_app ?; [auto | lia].
  - intros [-> Hall]. case_bool_decide as Hv; simpl.
    + split; [done|].
      intros g [Hg | ->%list_elem_of_singleton]%elem_of_app; [auto | done].
    + destruct (robot_position self) as [robot_row robot_col]. simpl.
      split; [set_solver|]. split; [done|].
      intros g [Hg | ->%list_elem_of_singleton]%elem_of_app ?; [|lia].
      by specialize (Hall g Hg).
Qed.

Lemma choose_loop_inv self seen st fs :
  choose_inv self seen st →
  choose_inv self (seen ++ fs) (foldl (choose_step self) st fs).
Proof.
  revert seen st. induction fs as [|f fs IH]; intros seen st Hinv; simpl.
  - by rewrite app_nil_r.
  - rewrite (cons_middle f seen fs), app_assoc.
    apply IH. by apply choose_step_inv.
Qed.

Lemma choose_frontier_inv self fs :
  choose_inv self fs (foldl (choose_step self) (Inf, None) fs).
Proof. apply (choose_loop_inv self [] (Inf, None) fs). split; [done | set_solver]. Qed.

(** A chosen frontier is an unvisited one of the list, no unvisited frontier
    of the list is cheaper, and it is added to the visited set; nothing else
    of the node changes. *)
Lemma choose_frontier_Some self fs self' f :
  choose_frontier self fs = (self', Some f) →
  f ∈ fs ∧ (f ∉ visited_frontiers self)
  ∧ (∀ g, g ∈ fs → g ∉ visited_frontiers self → f_cost f ≤ f_cost g)
  ∧ visited_frontiers self' = {[f]} ∪ visited_frontiers self
  ∧ map_data self' = map_data self ∧ costmap_data self' = costmap_data self
  ∧ robot_position self' = robot_position self.
Proof.
  unfold choose_frontier. pose proof (choose_frontier_inv self fs) as Hinv.
  destruct (foldl _ _ fs) as [d [ch|]]; [|done].
  unfold choose_inv in Hinv. simpl in Hinv. destruct Hinv as (? & ? & ?).
  intros [= <- <-]. done.
Qed.

(** Nothing is chosen exactly when every frontier of the list is visited,
    and then the node is as before. *)
Lemma choose_frontier_None self fs self' :
  choose_frontier self fs = (self', None) →
  self' = self ∧ ∀ g, g ∈ fs → g ∈ visited_frontiers self.
Proof.
  unfold choose_frontier. pose proof (choose_frontier_inv self fs) as Hinv.
  destruct (foldl _ _ fs) as [d [ch|]]; [done|].
  unfold choose_inv in Hinv. simpl in Hinv. destruct Hinv as [_ ?].
  intros [= <-]. done.
Qed.

Lemma choose_frontier_visited_mono self fs :
  visited_frontiers self ⊆ visited_frontiers (choose_frontier self fs).1.
Proof.
  destruct (choose_frontier self fs) as [self' [f|]] eqn:E; simpl.
  - apply choose_frontier_Some in E as (_ & _ & _ & -> & _). set_solver.
  - by apply choose_frontier_None in E as [-> _].
Qed.

Lemma select_session_spec self batches :
  let '(self', results) := select_session self batches in
  visited_frontiers self ⊆ visited_frontiers self'
  ∧ size (visited_frontiers self')
    = (size (visited_frontiers self) + length (selected results))%nat
  ∧ NoDup (selected results)
  ∧ ∀ f, f ∈ selected results →
         (f ∉ visited_frontiers self) ∧ f ∈ visited_frontiers self'.
Proof.
  revert self. induction batches as [|fs rest IH]; intros self; simpl.
  - split; [done|]. split; [lia|]. split; [constructor|].
    by intros f ?%elem_of_nil.
  - destruct (choose_frontier self fs) as [self1 chosen] eqn:E1.
    specialize (IH self1).
    destruct (select_session self1 rest) as [self2 results].
    destruct IH as (Hsub & Hsize & Hnd & Hsel).
    destruct chosen as [f|].
    + change (selected (Some f :: results)) with (f :: selected results).
      apply choose_frontier_Some in E1 as (_ & Hunv & _ & Hvis & _).
      rewrite Hvis in Hsub, Hsize, Hsel.
      rewrite size_union, size_singleton in Hsize
        by (by apply disjoint_singleton_l).
      split; [by etrans; [apply union_subseteq_r|]|].
      split; [simpl; lia|]. split.
      * constructor; [|done]. intros [Hn _]%Hsel.
        by apply Hn, elem_of_union_l, elem_of_singleton.
      * intros g [-> | [Hn Hg]%Hsel]%elem_of_cons.
        -- split; [done|]. by apply Hsub, elem_of_union_l, elem_of_singleton.
        -- split; [|done]. intros Hv. by apply Hn, elem_of_union_r.
    + change (selected (None :: results)) with (selected results).
      by apply choose_frontier_None in E1 as [-> _].
Qed.

End Selection.

(** ** Detection: the claims *)

(** C3. Whenever [find_frontiers] returns, a triple [(r, c, v)] is in its
    output exactly when [(r, c)] is an interior cell of the map whose value
    is 0 and one of whose 8 neighbours is -1, and [v] is the costmap's value
    at [(r, c)]; no cell appears twice. On a map and a costmap of the same
    shape it does return. *)
Theorem find_frontiers_frontier_condition {F} (self : ExplorerNode F) m cm :
  (shape0 cm = shape0 m → shape1 cm = shape1 m →
   ∃ fs, find_frontiers self m cm = Ok fs)
  ∧ ∀ fs, find_frontiers self m cm = Ok fs →
      (∀ r c v, (r, c, v) ∈ fs ↔ frontier_cell m r c ∧ getitem cm r c = Ok v)
      ∧ NoDup (cell_of <$> fs).
Proof.
  split.
  - intros H0 H1. destruct (find_frontiers self m cm) as [fs|e] eqn:Efs;
      [by exists fs|].
    apply find_frontiers_Raise in Efs as (_ & r & c & [[Hr Hc] _] & Hout). lia.
  - intros fs Efs. split.
    + intros r c v. apply (find_frontiers_elem_of _ _ _ _ (r, c, v) Efs).
    + eapply sorted_NoDup; [apply cell_lt_irrefl|].
      by eapply find_frontiers_sorted.
Qed.

Lemma find_frontiers_frontier_condition_witness :
  shape0 Scenario.costmap_array = shape0 Scenario.map_array
  ∧ shape1 Scenario.costmap_array = shape1 Scenario.map_array
  ∧ find_frontiers (@init Q) Scenario.map_array Scenario.costmap_array
    = Ok Scenario.frontiers
  ∧ (∀ r c v, (r, c, v) ∈ Scenario.frontiers
       ↔ frontier_cell Scenario.map_array r c
         ∧ getitem Scenario.costmap_array r c = Ok v)
  ∧ NoDup (cell_of <$> Scenario.frontiers).
Proof.
  split; [reflexivity|]. split; [reflexivity|]. split; [reflexivity|].
  apply (find_frontiers_frontier_condition (@init Q) Scenario.map_array
           Scenario.costmap_array).
  reflexivity.
Defined.

(** C6. No frontier that [find_frontiers] emits lies on the border of the
    map: its row is neither 0 nor [height - 1], its column neither 0 nor
    [width - 1]. *)
Theorem find_frontiers_border_exclusion {F} (self : ExplorerNode F) m cm fs f :
  find_frontiers self m cm = Ok fs → f ∈ fs →
  f_row f ≠ 0 ∧ f_row f ≠ shape0 m - 1 ∧ f_col f ≠ 0 ∧ f_col f ≠ shape1 m - 1.
Proof.
  intros Hfs Hf.
  apply (find_frontiers_elem_of _ _ _ _ _ Hfs) in Hf as [[[Hr Hc] _] _]. lia.
Qed.

Lemma find_frontiers_border_exclusion_witness :
  find_frontiers (@init Q) Scenario.map_array Scenario.costmap_array
  = Ok Scenario.frontiers
  ∧ (1, 1, 0) ∈ Scenario.frontiers
  ∧ f_row (1, 1, 0) ≠ 0 ∧ f_row (1, 1, 0) ≠ shape0 Scenario.map_array - 1
  ∧ f_col (1, 1, 0) ≠ 0 ∧ f_col (1, 1, 0) ≠ shape1 Scenario.map_array - 1.
Proof.
  split; [reflexivity|]. split; [apply list_elem_of_here|].
  apply (find_frontiers_border_exclusion (@init Q) Scenario.map_array
           Scenario.costmap_array Scenario.frontiers (1, 1, 0)).
  - reflexivity.
  - apply list_elem_of_here.
Defined.

(** C8. [find_frontiers] is a function of the map, the costmap and the
    robot position alone: two nodes with the same robot position, whatever
    else they hold, get the same result on the same arrays; and the output
    is in row-major scan order, an earlier frontier having a smaller row, or
    the same row and a smaller column, than a later one. *)
Theorem find_frontiers_deterministic {F} (self1 self2 : ExplorerNode F) m cm :
  robot_position self1 = robot_position self2 →
  find_frontiers self1 m cm = find_frontiers self2 m cm
  ∧ ∀ fs (i j : nat) f g,
      find_frontiers self1 m cm = Ok fs → (i < j)%nat →
      fs !! i = Some f → fs !! j = Some g → cell_lt (cell_of f) (cell_of g).
Proof.
  intros _. split; [by rewrite !find_frontiers_collect|].
  intros fs i j f g Hfs Hij Hi Hj.
  apply (sorted_lookup cell_lt (cell_of <$> fs) i j); [|done|..].
  - by eapply find_frontiers_sorted.
  - by rewrite list_lookup_fmap, Hi.
  - by rewrite list_lookup_fmap, Hj.
Qed.

Lemma find_frontiers_deterministic_witness :
  robot_position (@init Q) = robot_position Scenario.node_B
  ∧ find_frontiers (@init Q) Scenario.map_array Scenario.costmap_array
    = find_frontiers Scenario.node_B Scenario.map_array Scenario.costmap_array
  ∧ cell_lt (cell_of (1, 3, 0)) (cell_of (2, 1, 0)).
Proof.
  split; [reflexivity|].
  destruct (find_frontiers_deterministic (@init Q) Scenario.node_B
              Scenario.map_array Scenario.costmap_array eq_refl) as [Heq Hord].
  split; [exact Heq|].
  apply (Hord Scenario.frontiers 2%nat 3%nat); [reflexivity | lia | reflexivity..].
Defined.

(** [find_frontiers] compares no shapes. It raises, and then an
    [IndexError], exactly when some frontier cell of the map lies outside
    the costmap, and it returns exactly when every frontier cell of the map
    is an index of the costmap. *)
Lemma find_frontiers_costmap_bounds {F} (self : ExplorerNode F) m cm :
  (∀ e, find_frontiers self m cm = Raise e → e = IndexError)
  ∧ (find_frontiers self m cm = Raise IndexError
     ↔ ∃ r c, frontier_cell m r c ∧ (shape0 cm ≤ r ∨ shape1 cm ≤ c))
  ∧ ((∃ fs, find_frontiers self m cm = Ok fs)
     ↔ ∀ r c, frontier_cell m r c → r < shape0 cm ∧ c < shape1 cm).
Proof.
  split; [|split].
  - by intros e [-> _]%find_frontiers_Raise.
  - split.
    + by intros [_ ?]%find_frontiers_Raise.
    + intros (r & c & Hcell & Hout). by eapply find_frontiers_Raise_intro.
  - split.
    + intros [fs Hfs] r c Hcell.
      destruct (Z.lt_ge_cases r (shape0 cm)), (Z.lt_ge_cases c (shape1 cm));
        try done;
        rewrite (find_frontiers_Raise_intro self m cm r c Hcell) in Hfs;
        (done || lia).
    + intros Hall. destruct (find_frontiers self m cm) as [fs|e] eqn:Efs;
        [by eexists|].
      apply find_frontiers_Raise in Efs as (_ & r & c & Hcell & Hout).
      apply Hall in Hcell. lia.
Qed.

(** C5 as stated fails: with a 3x3 map and a 4x4 costmap detection returns
    a frontier, annotated with the costmap's value at the same index, and
    the tick sends a goal. *)
Lemma explore_mismatch_counterexample :
  info_height (Scenario.grid 3 3 Scenario.small_cells)
    ≠ info_height (Scenario.grid 4 4 Scenario.wide_costs)
  ∧ map_data Scenario.node_mismatch = Some (Scenario.grid 3 3 Scenario.small_cells)
  ∧ costmap_data Scenario.node_mismatch = Some (Scenario.grid 4 4 Scenario.wide_costs)
  ∧ find_frontiers Scenario.node_mismatch Scenario.small_array Scenario.wide_array
    = Ok [(1, 1, 5)]
  ∧ (explore Scenario.node_mismatch).1.2 = [SendGoal (- 0.95)%Q (- 0.95)%Q]
  ∧ (explore Scenario.node_mismatch).2 = Ok ().
Proof. repeat split; try done; vm_compute; reflexivity. Qed.

(** ** The tick *)

Section Tick.
Context {F : Type} `{PyFloat F}.
Implicit Types (self : ExplorerNode F) (fs : list Frontier) (f : Frontier).

(** The class has no attribute of the name that [explore] calls. *)
Lemma call_shutdown_robot self :
  call_method "shutdown_robot" self = (self, [], Raise AttributeError).
Proof. reflexivity. Qed.

Lemma explore_not_ready self :
  map_data self = None ∨ costmap_data self = None →
  explore self = (self, [], Ok ()).
Proof.
  unfold explore. intros [-> | ->]; [done|]. by destruct (map_data self).
Qed.

(** A tick on a node that holds both grids, once they are reshaped. *)
Lemma explore_ready self map_msg costmap_msg m cm :
  map_data self = Some map_msg → costmap_data self = Some costmap_msg →
  reshape (data map_msg) (info_height map_msg) (info_width map_msg) = Ok m →
  reshape (data costmap_msg) (info_height costmap_msg) (info_width costmap_msg) = Ok cm →
  explore self =
    match find_frontiers self m cm with
    | Raise e => (self, [], Raise e)
    | Ok [] => (self, [], Raise AttributeError)
    | Ok frontiers =>
        match choose_frontier self frontiers with
        | (self', None) => (self', [], Ok ())
        | (self', Some chosen) =>
            (self',
             [SendGoal
                (fadd (fmul (of_int (f_col chosen)) (info_resolution map_msg))
                      (info_origin_x map_msg))
                (fadd (fmul (of_int (f_row chosen)) (info_resolution map_msg))
                      (info_origin_y map_msg))],
             Ok ())
        end
    end.
Proof.
  intros Hmap Hcost Hm Hcm. unfold explore. rewrite Hmap, Hcost, Hm, Hcm.
  destruct (find_frontiers self m cm) as [[|f fs]|e]; try done.
Qed.

Lemma explore_no_frontiers self map_msg costmap_msg m cm :
  map_data self = Some map_msg → costmap_data self = Some costmap_msg →
  reshape (data map_msg) (info_height map_msg) (info_width map_msg) = Ok m →
  reshape (data costmap_msg) (info_height costmap_msg) (info_width costmap_msg) = Ok cm →
  find_frontiers self m cm = Ok [] →
  explore self = (self, [], Raise AttributeError).
Proof.
  intros Hmap Hcost Hm Hcm Hfs.
  by rewrite (explore_ready _ _ _ _ _ Hmap Hcost Hm Hcm), Hfs.
Qed.

(** A tick leaves the grids and the robot position alone and removes
    nothing from the visited set. *)
Lemma explore_frame self :
  robot_position (explore self).1.1 = robot_position self
  ∧ visited_frontiers self ⊆ visited_frontiers (explore self).1.1.
Proof.
  unfold explore.
  destruct (map_data self) as [map_msg|]; [|done].
  destruct (costmap_data self) as [costmap_msg|]; [|done].
  destruct (reshape (data map_msg) _ _) as [m|e]; [|done].
  destruct (reshape (data costmap_msg) _ _) as [cm|e]; [|done].
  destruct (find_frontiers self m cm) as [[|f fs]|e]; [done| |done].
  pose proof (choose_frontier_visited_mono self (f :: fs)) as Hmono.
  destruct (choose_frontier self (f :: fs)) as [self' [chosen|]] eqn:E; simpl.
  - by apply choose_frontier_Some in E as (_ & _ & _ & _ & _ & _ & ->).
  - by apply choose_frontier_None in E as [-> _].
Qed.

Lemma dispatch_frame self ev :
  robot_position (dispatch self ev).1.1 = robot_position self
  ∧ visited_frontiers self ⊆ visited_frontiers (dispatch self ev).1.1.
Proof. destruct ev; simpl; try done. apply explore_frame. Qed.

Lemma spin_robot_position self evs :
  robot_position (spin self evs).1.1 = robot_position self.
Proof.
  revert self. induction evs as [|ev evs IH]; intros self; simpl; [done|].
  pose proof (dispatch_frame self ev) as [Hpos _].
  destruct (dispatch self ev) as [[self' effs] [[]|e]]; simpl in *; [|done].
  destruct (existsb is_shutdown effs); [done|].
  specialize (IH self'). destruct (spin self' evs) as [[self'' effs'] r].
  simpl in *. congruence.
Qed.

(** C9. A tick of a node that has not received the map, or has not
    received the costmap, does nothing: the node (and its visited set) is as
    before, no goal is sent, nothing is shut down and nothing is raised. *)
Theorem explore_skips_when_not_ready self :
  map_data self = None ∨ costmap_data self = None →
  explore self = (self, [], Ok ())
  ∧ visited_frontiers (explore self).1.1 = visited_frontiers self
  ∧ (∀ x y, SendGoal x y ∉ (explore self).1.2)
  ∧ RclpyShutdown ∉ (explore self).1.2.
Proof.
  intros Hnone%explore_not_ready. rewrite Hnone. simpl.
  repeat split; try done; intros; apply not_elem_of_nil.
Qed.

(** C7. When a tick chooses the frontier [f], the goal it sends has
    [x = f_col f * resolution + origin.x] and
    [y = f_row f * resolution + origin.y], resolution and origin being the
    map's; with resolution 0.05 and origin (-1.0, -1.0) that is
    [(col * 0.05 - 1.0, row * 0.05 - 1.0)]. *)
Theorem explore_goal_coordinates self map_msg costmap_msg m cm fs f :
  map_data self = Some map_msg → costmap_data self = Some costmap_msg →
  reshape (data map_msg) (info_height map_msg) (info_width map_msg) = Ok m →
  reshape (data costmap_msg) (info_height costmap_msg) (info_width costmap_msg) = Ok cm →
  find_frontiers self m cm = Ok fs →
  (choose_frontier self fs).2 = Some f →
  (explore self).1.2
  = [SendGoal
       (fadd (fmul (of_int (f_col f)) (info_resolution map_msg)) (info_origin_x map_msg))
       (fadd (fmul (of_int (f_row f)) (info_resolution map_msg)) (info_origin_y map_msg))]
  ∧ (info_resolution map_msg = of_lit 0.05 →
     info_origin_x map_msg = fneg (of_lit 1) →
     info_origin_y map_msg = fneg (of_lit 1) →
     (explore self).1.2
     = [SendGoal (fsub (fmul (of_int (f_col f)) (of_lit 0.05)) (of_lit 1))
                 (fsub (fmul (of_int (f_row f)) (of_lit 0.05)) (of_lit 1))]).
Proof.
  intros Hmap Hcost Hm Hcm Hfs Hf.
  assert (Hgoal : (explore self).1.2
    = [SendGoal
         (fadd (fmul (of_int (f_col f)) (info_resolution map_msg)) (info_origin_x map_msg))
         (fadd (fmul (of_int (f_row f)) (info_resolution map_msg)) (info_origin_y map_msg))]).
  { rewrite (explore_ready _ _ _ _ _ Hmap Hcost Hm Hcm), Hfs.
    destruct (choose_frontier self fs) as [self' chosen] eqn:E.
    simpl in Hf. subst chosen.
    apply choose_frontier_Some in E as (Hin & _).
    destruct fs as [|g fs]; [by apply elem_of_nil in Hin | done]. }
  split; [done|]. intros Hres Hx Hy.
  by rewrite Hgoal, Hres, Hx, Hy, !fadd_fneg.
Qed.

(** C10. The robot position is (0, 0) when the node is created and no
    callback and no selection changes it: whatever events the node has
    handled, the distance of a cell [(r, c)] is measured from (0, 0). *)
Theorem robot_position_never_updated :
  robot_position (@init F) = (0, 0)
  ∧ (∀ self ev, robot_position (dispatch self ev).1.1 = robot_position self)
  ∧ (∀ self fs, robot_position (choose_frontier self fs).1 = robot_position self)
  ∧ (∀ evs, robot_position (spin init evs).1.1 = (0, 0))
  ∧ (∀ evs r c, distance_from (robot_position (spin init evs).1.1) r c
                = Sqrt ((0 - r) ^ 2 + (0 - c) ^ 2)).
Proof.
  split; [done|]. split; [intros; apply dispatch_frame|]. split; [|split].
  - intros self fs.
    destruct (choose_frontier self fs) as [self' [chosen|]] eqn:E; simpl.
    + by apply choose_frontier_Some in E as (_ & _ & _ & _ & _ & _ & ->).
    + by apply choose_frontier_None in E as [-> _].
  - intros evs. by rewrite spin_robot_position.
  - intros evs r c. by rewrite spin_robot_position.
Qed.

(** C4, as the code has it. The visited set holds the whole tuples
    [(row, col, cost)]. No event removes a tuple from it; along any session
    of selections it grows by exactly the tuples selected, one entry per
    successful selection, so that after [k] successful selections from the
    start it has [k] entries; and no tuple is selected twice. *)
Theorem visited_tuples_grow self batches :
  (∀ ev, visited_frontiers self ⊆ visited_frontiers (dispatch self ev).1.1)
  ∧ visited_frontiers self ⊆ visited_frontiers (select_session self batches).1
  ∧ size (visited_frontiers (select_session self batches).1)
    = (size (visited_frontiers self)
       + length (selected (select_session self batches).2))%nat
  ∧ size (visited_frontiers (select_session (@init F) batches).1)
    = length (selected (select_session (@init F) batches).2)
  ∧ NoDup (selected (select_session self batches).2)
  ∧ ∀ f, f ∈ selected (select_session self batches).2 →
         (f ∉ visited_frontiers self)
         ∧ f ∈ visited_frontiers (select_session self batches).1.
Proof.
  split; [intros; apply dispatch_frame|].
  pose proof (select_session_spec self batches) as Hs.
  pose proof (select_session_spec (@init F) batches) as Hi.
  destruct (select_session self batches) as [self' results].
  destruct (select_session init batches) as [init' results'].
  simpl. destruct Hs as (Hsub & Hsize & Hnd & Hsel), Hi as (_ & Hi & _).
  split; [done|]. split; [done|]. split; [|by split].
  by rewrite Hi.
Qed.

(** C5, as the code has it. A tick compares no dimensions. It reads the
    costmap at each frontier cell of the map: it ends in an [IndexError],
    leaving the node as it was and sending nothing, exactly when some
    frontier cell of the map lies outside the costmap (its row is at least
    the costmap's height or its column at least the costmap's width);
    detection returns its frontiers exactly when every frontier cell of the
    map is an index of the costmap, whether or not the dimensions agree.
    What it returns then is every frontier cell of the map, once, with the
    costmap's value at the same index, and when there are any the tick goes
    on with them: it is the selection among them, with a goal for the
    frontier chosen and no goal when none is. *)
Theorem explore_costmap_bounds self map_msg costmap_msg m cm :
  map_data self = Some map_msg → costmap_data self = Some costmap_msg →
  reshape (data map_msg) (info_height map_msg) (info_width map_msg) = Ok m →
  reshape (data costmap_msg) (info_height costmap_msg) (info_width costmap_msg) = Ok cm →
  (explore self = (self, [], Raise IndexError)
   ↔ ∃ r c, frontier_cell m r c
            ∧ (Z.of_N (info_height costmap_msg) ≤ r
               ∨ Z.of_N (info_width costmap_msg) ≤ c))
  ∧ ((∃ fs, find_frontiers self m cm = Ok fs)
     ↔ ∀ r c, frontier_cell m r c →
              r < Z.of_N (info_height costmap_msg)
              ∧ c < Z.of_N (info_width costmap_msg))
  ∧ ∀ fs, find_frontiers self m cm = Ok fs →
      (∀ r c v, (r, c, v) ∈ fs ↔ frontier_cell m r c ∧ getitem cm r c = Ok v)
      ∧ NoDup (cell_of <$> fs)
      ∧ (fs ≠ [] →
         explore self
         = ((choose_frontier self fs).1,
            match (choose_frontier self fs).2 with
            | None => []
            | Some f =>
                [SendGoal
                   (fadd (fmul (of_int (f_col f)) (info_resolution map_msg))
                         (info_origin_x map_msg))
                   (fadd (fmul (of_int (f_row f)) (info_resolution map_msg))
                         (info_origin_y map_msg))]
            end,
            Ok ())).
Proof.
  intros Hmap Hcost Hm Hcm.
  assert (shape0 cm = Z.of_N (info_height costmap_msg)
          ∧ shape1 cm = Z.of_N (info_width costmap_msg)) as [<- <-].
  { unfold reshape in Hcm. case_match; [|done]. by injection Hcm as <-. }
  destruct (find_frontiers_costmap_bounds self m cm) as (_ & Hraise & Hok).
  split; [|split; [done|]].
  - rewrite <- Hraise.
    rewrite (explore_ready _ _ _ _ _ Hmap Hcost Hm Hcm). split.
    + destruct (find_frontiers self m cm) as [[|f fs]|e]; [done| |congruence].
      by destruct (choose_frontier self (f :: fs)) as [self' [chosen|]].
    + by intros ->.
  - intros fs Hfs. split; [|split].
    + intros r c v. apply (find_frontiers_elem_of _ _ _ _ (r, c, v) Hfs).
    + eapply sorted_NoDup; [apply cell_lt_irrefl|].
      by eapply find_frontiers_sorted.
    + intros Hne. rewrite (explore_ready _ _ _ _ _ Hmap Hcost Hm Hcm), Hfs.
      destruct fs as [|f0 fs]; [done|].
      by destruct (choose_frontier self (f0 :: fs)) as [self' [chosen|]].
Qed.

End Tick.

(** ** The tick on the scenarios *)

Lemma explore_skips_when_not_ready_witness :
  (map_data (@init Q) = None ∨ costmap_data (@init Q) = None)
  ∧ explore (@init Q) = (init, [], Ok ())
  ∧ visited_frontiers (explore (@init Q)).1.1 = visited_frontiers (@init Q)
  ∧ (∀ x y, SendGoal x y ∉ (explore (@init Q)).1.2)
  ∧ RclpyShutdown ∉ (explore (@init Q)).1.2.
Proof.
  split; [left; reflexivity|].
  apply (explore_skips_when_not_ready (@init Q)). left. reflexivity.
Defined.

Lemma explore_goal_coordinates_witness :
  map_data Scenario.node_B = Some (Scenario.grid 5 5 Scenario.map_cells)
  ∧ costmap_data Scenario.node_B = Some (Scenario.grid 5 5 Scenario.free_cells)
  ∧ reshape Scenario.map_cells 5 5 = Ok Scenario.map_array
  ∧ reshape Scenario.free_cells 5 5 = Ok Scenario.costmap_array
  ∧ find_frontiers Scenario.node_B Scenario.map_array Scenario.costmap_array
    = Ok Scenario.frontiers
  ∧ (choose_frontier Scenario.node_B Scenario.frontiers).2 = Some (3, 3, 0)
  ∧ (explore Scenario.node_B).1.2
    = [SendGoal (3 * 0.05 - 1)%Q (3 * 0.05 - 1)%Q].
Proof.
  repeat (split; [reflexivity|]).
  destruct (explore_goal_coordinates Scenario.node_B
              (Scenario.grid 5 5 Scenario.map_cells)
              (Scenario.grid 5 5 Scenario.free_cells)
              Scenario.map_array Scenario.costmap_array
              Scenario.frontiers (3, 3, 0)) as [_ Hlit];
    [reflexivity..|].
  apply Hlit; reflexivity.
Defined.

Lemma explore_costmap_bounds_witness :
  map_data Scenario.node_mismatch = Some (Scenario.grid 3 3 Scenario.small_cells)
  ∧ costmap_data Scenario.node_mismatch = Some (Scenario.grid 4 4 Scenario.wide_costs)
  ∧ reshape Scenario.small_cells 3 3 = Ok Scenario.small_array
  ∧ reshape Scenario.wide_costs 4 4 = Ok Scenario.wide_array
  ∧ find_frontiers Scenario.node_mismatch Scenario.small_array Scenario.wide_array
    = Ok [(1, 1, 5)]
  ∧ (explore Scenario.node_mismatch = (Scenario.node_mismatch, [], Raise IndexError)
     ↔ ∃ r c, frontier_cell Scenario.small_array r c ∧ (4 ≤ r ∨ 4 ≤ c))
  ∧ ((∃ fs, find_frontiers Scenario.node_mismatch Scenario.small_array
              Scenario.wide_array = Ok fs)
     ↔ ∀ r c, frontier_cell Scenario.small_array r c → r < 4 ∧ c < 4)
  ∧ (∀ r c v, (r, c, v) ∈ [(1, 1, 5)]
       ↔ frontier_cell Scenario.small_array r c
         ∧ getitem Scenario.wide_array r c = Ok v)
  ∧ NoDup (cell_of <$> [(1, 1, 5)])
  ∧ explore Scenario.node_mismatch
    = ((choose_frontier Scenario.node_mismatch [(1, 1, 5)]).1,
       [SendGoal (1 * 0.05 + - 1)%Q (1 * 0.05 + - 1)%Q], Ok ()).
Proof.
  repeat (split; [reflexivity|]).
  destruct (explore_costmap_bounds Scenario.node_mismatch
              (Scenario.grid 3 3 Scenario.small_cells)
              (Scenario.grid 4 4 Scenario.wide_costs)
              Scenario.small_array Scenario.wide_array
              eq_refl eq_refl eq_refl eq_refl) as (Hraise & Hok & Hfs).
  split; [exact Hraise|]. split; [exact Hok|].
  destruct (Hfs [(1, 1, 5)] eq_refl) as (Hin & Hnodup & Hgo).
  split; [exact Hin|]. split; [exact Hnodup|].
  exact (Hgo ltac:(discriminate)).
Defined.

(** With a costmap smaller than the map the tick stops at the first frontier
    cell that the costmap does not have, here (1, 3). *)
Example explore_small_costmap_raises :
  explore Scenario.node_small_costmap
  = (Scenario.node_small_costmap, [], Raise IndexError).
Proof. vm_compute. reflexivity. Qed.

(** C1 on the code. On the 5x5 map of Scenario B, with a costmap that is 0
    everywhere, the robot at (0, 0) and nothing visited, [find_frontiers]
    gives the 8 neighbours of (2, 2) and [choose_frontier] returns the last
    of them, (3, 3, 0); the nearest unvisited frontier is (1, 1, 0). *)
Theorem choose_frontier_scenario_B :
  find_frontiers Scenario.node_B Scenario.map_array Scenario.costmap_array
  = Ok Scenario.frontiers
  ∧ robot_position Scenario.node_B = (0, 0)
  ∧ visited_frontiers Scenario.node_B = ∅
  ∧ (choose_frontier Scenario.node_B Scenario.frontiers).2 = Some (3, 3, 0)
  ∧ nearest_unvisited Scenario.node_B Scenario.frontiers (1, 1, 0)
  ∧ ¬ nearest_unvisited Scenario.node_B Scenario.frontiers (3, 3, 0).
Proof.
  split; [reflexivity|]. split; [reflexivity|]. split; [reflexivity|].
  split; [vm_compute; reflexivity|]. split.
  - split; [apply list_elem_of_here|]. split; [apply not_elem_of_empty|].
    intros g Hg _. unfold Scenario.frontiers in Hg.
    repeat (apply elem_of_cons in Hg as [-> | Hg]);
      [vm_compute; (by left) || (right; split; [reflexivity | discriminate]) ..|].
    by apply elem_of_nil in Hg.
  - intros (_ & _ & Hmin).
    destruct (Hmin (1, 1, 0)) as [Hlt | [Heq _]];
      [apply list_elem_of_here | apply not_elem_of_empty | |]; by vm_compute in *.
Qed.

(** C2 on the code. On a map without unknown cells [find_frontiers] returns
    the empty list and the tick calls [self.shutdown_robot()], a name the
    class does not have (its method is [shudown_robot]): the tick raises
    [AttributeError] and the shutdown routine, which destroys the node and
    shuts rclpy down, is not run. *)
Theorem explore_scenario_D_raises :
  find_frontiers Scenario.node_D Scenario.costmap_array Scenario.costmap_array
  = Ok []
  ∧ explore Scenario.node_D = (Scenario.node_D, [], Raise AttributeError)
  ∧ shudown_robot Scenario.node_D
    = (Scenario.node_D, [DestroyNode; RclpyShutdown], Ok ()).
Proof.
  split; [reflexivity|]. split; [|reflexivity].
  apply (explore_no_frontiers Scenario.node_D
           (Scenario.grid 5 5 Scenario.free_cells)
           (Scenario.grid 5 5 Scenario.free_cells)
           Scenario.costmap_array Scenario.costmap_array); reflexivity.
Qed.

(** C4 as stated fails: once (1, 1, 0) has been selected, the frontier at
    the same cell with cost 5 is selected again. *)
Lemma visited_identity_counterexample :
  (choose_frontier (@init Q) [(1, 1, 0)]).2 = Some (1, 1, 0)
  ∧ (choose_frontier (choose_frontier (@init Q) [(1, 1, 0)]).1 [(1, 1, 5)]).2
    = Some (1, 1, 5)
  ∧ cell_of (1, 1, 5) = cell_of (1, 1, 0).
Proof. repeat split; vm_compute; reflexivity. Qed.

(** * Further properties of the code *)

(** ** Selection *)

Section SelectionMore.
Context {F : Type}.
Implicit Types (self : ExplorerNode F) (fs : list Frontier) (f g : Frontier).

Lemma choose_step_last self seen st f :
  match st.2 with
  | None => st.1 = Inf ∧ ∀ g, g ∈ seen → g ∈ visited_frontiers self
  | Some ch => last_min_cost self seen ch
  end →
  match (choose_step self st f).2 with
  | None => (choose_step self st f).1 = Inf
            ∧ ∀ g, g ∈ seen ++ [f] → g ∈ visited_frontiers self
  | Some ch => last_min_cost self (seen ++ [f]) ch
  end.
Proof.
  destruct st as [min_distance [chosen|]]; unfold choose_step; simpl.
  - intros (before & after & -> & Hunv & Hbefore & Hafter).
    case_bool_decide as Hv; simpl.
    + exists before, (after ++ [f]). split; [by rewrite <- app_assoc|].
      split; [done|]. split; [done|].
      intros g [Hg | ->%list_elem_of_singleton]%elem_of_app ?; [auto | done].
    + rewrite andb_false_r. simpl.
      destruct (Z.leb_spec (f_cost f) (f_cost chosen)); simpl.
      * exists (before ++ chosen :: after), []. split; [done|]. split; [done|].
        split; [|by intros g ?%elem_of_nil].
        intros g [Hg | [-> | Hg]%elem_of_cons]%elem_of_app Hg'.
        -- specialize (Hbefore g Hg Hg'). lia.
        -- done.
        -- specialize (Hafter g Hg Hg'). lia.
      * exists before, (after ++ [f]). split; [by rewrite <- app_assoc|].
        split; [done|]. split; [done|].
        intros g [Hg | ->%list_elem_of_singleton]%elem_of_app ?; [auto | lia].
  - intros [-> Hall]. case_bool_decide as Hv; simpl.
    + split; [done|].
      intros g [Hg | ->%list_elem_of_singleton]%elem_of_app; [auto | done].
    + destruct (robot_position self) as [robot_row robot_col]. simpl.
      exists seen, []. split; [done|]. split; [done|].
      split; [|by intros g ?%elem_of_nil].
      intros g Hg Hg'. by specialize (Hall g Hg).
Qed.

Lemma choose_loop_last self seen st fs :
  match st.2 with
  | None => st.1 = Inf ∧ ∀ g, g ∈ seen → g ∈ visited_frontiers self
  | Some ch => last_min_cost self seen ch
  end →
  match (foldl (choose_step self) st fs).2 with
  | None => ∀ g, g ∈ seen ++ fs → g ∈ visited_frontiers self
  | Some ch => last_min_cost self (seen ++ fs) ch
  end.
Proof.
  revert seen st. induction fs as [|f fs IH]; intros seen st Hinv; simpl.
  - rewrite app_nil_r. destruct (st.2); [done | by destruct Hinv].
  - rewrite (cons_middle f seen fs), app_assoc.
    apply IH. by apply choose_step_last.
Qed.

(** X1. The frontier that [choose_frontier] returns is the last unvisited
    frontier of least cost in the list. *)
Theorem choose_frontier_last_min_cost self fs self' f :
  choose_frontier self fs = (self', Some f) → last_min_cost self fs f.
Proof.
  unfold choose_frontier.
  pose proof (choose_loop_last self [] (Inf, None) fs) as Hinv.
  destruct (foldl _ _ fs) as [d [ch|]]; [|done].
  intros [= <- <-]. apply Hinv. simpl. split; [done|]. by intros g ?%elem_of_nil.
Qed.

(** X2. [choose_frontier] returns [None] exactly when every frontier of the
    list is already visited (so also on the empty list), and then the node
    is unchanged. *)
Theorem choose_frontier_None_iff self fs :
  ((choose_frontier self fs).2 = None
   ↔ ∀ g, g ∈ fs → g ∈ visited_frontiers self)
  ∧ ((choose_frontier self fs).2 = None → (choose_frontier self fs).1 = self).
Proof.
  destruct (choose_frontier self fs) as [self' [f|]] eqn:E; simpl.
  - apply choose_frontier_Some in E as (Hin & Hunv & _).
    split; [|done]. split; [done|]. intros Hall. by apply Hall in Hin.
  - apply choose_frontier_None in E as [-> Hall]. done.
Qed.

Lemma choose_loop_position self1 self2 st1 st2 fs :
  visited_frontiers self1 = visited_frontiers self2 →
  st1.2 = st2.2 → (st1.2 = None → st1.1 = Inf ∧ st2.1 = Inf) →
  (foldl (choose_step self1) st1 fs).2 = (foldl (choose_step self2) st2 fs).2.
Proof.
  intros Hvis. revert st1 st2.
  induction fs as [|f fs IH]; intros st1 st2 Heq Hinf; simpl; [done|].
  apply IH.
  - destruct st1 as [d1 ch1], st2 as [d2 ch2]. simpl in *. subst ch2.
    unfold choose_step. rewrite Hvis. case_bool_decide; [done|].
    destruct ch1 as [ch|]; simpl.
    + rewrite !andb_false_r. simpl. by destruct (f_cost f <=? f_cost ch).
    + destruct (Hinf eq_refl) as [-> ->].
      by destruct (robot_position self1), (robot_position self2).
  - destruct st1 as [d1 ch1], st2 as [d2 ch2]. simpl in *. subst ch2.
    unfold choose_step. rewrite Hvis. case_bool_decide; [done|].
    destruct ch1 as [ch|]; simpl.
    + rewrite !andb_false_r. simpl. by destruct (f_cost f <=? f_cost ch).
    + destruct (Hinf eq_refl) as [-> ->].
      by destruct (robot_position self1), (robot_position self2).
Qed.

(** X3. Where [np.sqrt] takes every distance (squared distances below
    [2**64]), the robot position has no influence on the choice: two nodes
    with the same visited set choose the same frontier from the same list
    and end with the same visited set, wherever their robots are. *)
Theorem choose_frontier_ignores_robot_position self1 self2 fs :
  sqrt_defined self1 fs → sqrt_defined self2 fs →
  visited_frontiers self1 = visited_frontiers self2 →
  (choose_frontier self1 fs).2 = (choose_frontier self2 fs).2
  ∧ visited_frontiers (choose_frontier self1 fs).1
    = visited_frontiers (choose_frontier self2 fs).1.
Proof.
  intros _ _ Hvis. unfold choose_frontier.
  pose proof (choose_loop_position self1 self2 (Inf, None) (Inf, None) fs
                Hvis eq_refl (λ _, conj eq_refl eq_refl)) as Heq.
  destruct (foldl (choose_step self1) _ fs) as [d1 ch1],
    (foldl (choose_step self2) _ fs) as [d2 ch2]. simpl in Heq. subst ch2.
  destruct ch1; simpl; [|done]. by rewrite Hvis.
Qed.

(** X4. Choosing twice from the same list never gives the same frontier
    twice, and the second choice is not cheaper than the first. *)
Theorem choose_frontier_twice self fs self1 f self2 g :
  choose_frontier self fs = (self1, Some f) →
  choose_frontier self1 fs = (self2, Some g) →
  g ≠ f ∧ f_cost f ≤ f_cost g.
Proof.
  intros (_ & _ & Hmin & Hvis & _)%choose_frontier_Some
         (Hg & Hunv & _)%choose_frontier_Some.
  rewrite Hvis in Hunv. split.
  - intros ->. by apply Hunv, elem_of_union_l, elem_of_singleton.
  - apply Hmin; [done|]. intros Hv. by apply Hunv, elem_of_union_r.
Qed.

Lemma select_session_exhausts fs n self :
  (size (list_to_set fs ∖ visited_frontiers self : gset Frontier) ≤ n)%nat →
  ∀ g, g ∈ fs → g ∈ visited_frontiers (select_session self (replicate n fs)).1.
Proof.
  revert self. induction n as [|n IH]; intros self Hsize g Hg; simpl.
  - assert (list_to_set fs ∖ visited_frontiers self ≡ (∅ : gset Frontier)) as Hemp.
    { apply size_empty_iff. lia. }
    destruct (decide (g ∈ visited_frontiers self)) as [|Hn]; [done|].
    assert (g ∈ (list_to_set fs ∖ visited_frontiers self : gset Frontier)) as Hin.
    { apply elem_of_difference. split; [by apply elem_of_list_to_set | done]. }
    apply Hemp in Hin. by apply elem_of_empty in Hin.
  - destruct (choose_frontier self fs) as [self1 [f|]] eqn:E.
    + pose proof E as (Hf & Hunv & _ & Hvis & _)%choose_frontier_Some.
      specialize (IH self1).
      destruct (select_session self1 (replicate n fs)) as [self2 results].
      simpl in *. apply IH; [|done]. rewrite Hvis.
      assert ((list_to_set fs ∖ ({[f]} ∪ visited_frontiers self) : gset Frontier)
              = (list_to_set fs ∖ visited_frontiers self) ∖ {[f]}) as ->
        by (apply set_eq; intros x;
            rewrite !elem_of_difference, elem_of_union, elem_of_singleton; tauto).
      rewrite size_difference, size_singleton.
      * lia.
      * apply singleton_subseteq_l, elem_of_difference.
        split; [by apply elem_of_list_to_set | done].
    + apply choose_frontier_None in E as [-> Hall].
      pose proof (select_session_spec self (replicate n fs)) as Hs.
      destruct (select_session self (replicate n fs)) as [self2 results].
      simpl. destruct Hs as [Hsub _]. by apply Hsub, Hall.
Qed.

Lemma size_list_to_set_le fs :
  (size (list_to_set fs : gset Frontier) ≤ length fs)%nat.
Proof.
  induction fs as [|f fs IH]; simpl.
  - vm_compute. lia.
  - rewrite size_union_alt, size_singleton.
    assert (size (list_to_set fs ∖ {[f]} : gset Frontier)
            ≤ size (list_to_set fs : gset Frontier))%nat
      by (apply subseteq_size, subseteq_difference_l; done).
    lia.
Qed.

(** X5. Selection from a fixed list runs dry: after as many calls of
    [choose_frontier] on a list as it has elements, every frontier of the
    list is visited and a further call returns [None]. *)
Theorem choose_frontier_exhausts self fs n :
  (length fs ≤ n)%nat →
  (∀ g, g ∈ fs → g ∈ visited_frontiers (select_session self (replicate n fs)).1)
  ∧ (choose_frontier (select_session self (replicate n fs)).1 fs).2 = None.
Proof.
  intros Hn.
  assert (Hall : ∀ g, g ∈ fs →
            g ∈ visited_frontiers (select_session self (replicate n fs)).1).
  { apply select_session_exhausts.
    pose proof (size_list_to_set_le fs).
    assert (size (list_to_set fs ∖ visited_frontiers self : gset Frontier)
            ≤ size (list_to_set fs : gset Frontier))%nat
      by (apply subseteq_size, subseteq_difference_l; done).
    lia. }
  split; [done|].
  destruct (choose_frontier _ fs) as [self' [f|]] eqn:E; [|done].
  apply choose_frontier_Some in E as (Hin & Hunv & _). by apply Hall in Hin.
Qed.

End SelectionMore.

Lemma choose_frontier_last_min_cost_witness :
  choose_frontier (@init Q) Cases.priced
  = ((choose_frontier (@init Q) Cases.priced).1, Some (2, 1, 1))
  ∧ last_min_cost (@init Q) Cases.priced (2, 1, 1).
Proof.
  split; [reflexivity|].
  apply (choose_frontier_last_min_cost (@init Q) Cases.priced
           (choose_frontier (@init Q) Cases.priced).1 (2, 1, 1)).
  reflexivity.
Defined.

Lemma choose_frontier_ignores_robot_position_witness :
  sqrt_defined (Cases.node_at (0, 0) [(2, 1, 1)]) Cases.priced
  ∧ sqrt_defined (Cases.node_at (4, 4) [(2, 1, 1)]) Cases.priced
  ∧ visited_frontiers (Cases.node_at (0, 0) [(2, 1, 1)])
    = visited_frontiers (Cases.node_at (4, 4) [(2, 1, 1)])
  ∧ (choose_frontier (Cases.node_at (0, 0) [(2, 1, 1)]) Cases.priced).2
    = (choose_frontier (Cases.node_at (4, 4) [(2, 1, 1)]) Cases.priced).2
  ∧ visited_frontiers (choose_frontier (Cases.node_at (0, 0) [(2, 1, 1)]) Cases.priced).1
    = visited_frontiers (choose_frontier (Cases.node_at (4, 4) [(2, 1, 1)]) Cases.priced).1.
Proof.
  assert (Hdef : ∀ robot, robot = (0, 0) ∨ robot = (4, 4) →
            sqrt_defined (Cases.node_at robot [(2, 1, 1)]) Cases.priced).
  { intros robot Hrobot f Hf. unfold Cases.priced in Hf.
    repeat (apply elem_of_cons in Hf as [-> | Hf]);
      [destruct Hrobot as [-> | ->]; reflexivity ..|].
    by apply elem_of_nil in Hf. }
  split; [apply Hdef; by left|]. split; [apply Hdef; by right|].
  split; [reflexivity|].
  apply (choose_frontier_ignores_robot_position
           (Cases.node_at (0, 0) [(2, 1, 1)]) (Cases.node_at (4, 4) [(2, 1, 1)])).
  - apply Hdef. by left.
  - apply Hdef. by right.
  - reflexivity.
Defined.

Lemma choose_frontier_twice_witness :
  (1, 2, 1) ≠ (2, 1, 1) ∧ f_cost (2, 1, 1) ≤ f_cost (1, 2, 1).
Proof.
  apply (choose_frontier_twice (@init Q) Cases.priced
           (choose_frontier (@init Q) Cases.priced).1 (2, 1, 1)
           (choose_frontier (choose_frontier (@init Q) Cases.priced).1 Cases.priced).1
           (1, 2, 1)); reflexivity.
Defined.

Lemma choose_frontier_exhausts_witness :
  (length Cases.priced ≤ 4)%nat
  ∧ (∀ g, g ∈ Cases.priced →
       g ∈ visited_frontiers
             (select_session (@init Q) (replicate 4 Cases.priced)).1)
  ∧ (choose_frontier (select_session (@init Q) (replicate 4 Cases.priced)).1
       Cases.priced).2 = None.
Proof.
  split; [simpl; lia|].
  apply (choose_frontier_exhausts (@init Q) Cases.priced 4). simpl. lia.
Defined.

(** ** Detection *)

Lemma collect_bind {A B} (g : A → result (list B)) (k : A → list B) l fs :
  collect g l = Ok fs →
  (∀ y ys, y ∈ l → g y = Ok ys → ys = k y) →
  fs = l ≫= k.
Proof.
  revert fs. induction l as [|a l IH]; simpl; intros fs Hfs Hk.
  - by injection Hfs as <-.
  - destruct (g a) as [ys|e] eqn:Ea; simpl in Hfs; [|done].
    destruct (collect g l) as [rest|e] eqn:El; simpl in Hfs; [|done].
    injection Hfs as <-. f_equal.
    + apply Hk; [by left | done].
    + apply IH; [done|]. intros; apply Hk; [by right | done].
Qed.

Lemma fmap_bind_list {A B C} (h : B → C) (k : A → list B) (l : list A) :
  h <$> (l ≫= k) = l ≫= (λ x, h <$> k x).
Proof.
  induction l as [|a l IH]; [done|]. by rewrite !bind_cons, fmap_app, IH.
Qed.

Lemma bind_ext_in {A B} (k1 k2 : A → list B) (l : list A) :
  (∀ x, x ∈ l → k1 x = k2 x) → l ≫= k1 = l ≫= k2.
Proof.
  induction l as [|a l IH]; intros Hk; [done|].
  rewrite !bind_cons, Hk by left. f_equal. apply IH. intros; apply Hk. by right.
Qed.


Lemma elem_of_frontier_cells m r c :
  (r, c) ∈ frontier_cells m ↔ frontier_cell m r c.
Proof.
  unfold frontier_cells. rewrite list_elem_of_bind. split.
  - intros (r' & (c' & Hrc & Hc%elem_of_range)%list_elem_of_bind & Hr%elem_of_range).
    destruct (is_frontier m r' c') eqn:Eb; [|by apply elem_of_nil in Hrc].
    apply list_elem_of_singleton in Hrc. injection Hrc as -> ->.
    apply is_frontier_spec; [split; lia | done].
  - intros Hcell. pose proof Hcell as [Hin _]. pose proof Hin as [Hr Hc].
    exists r. split; [|apply elem_of_range; lia].
    apply list_elem_of_bind. exists c. split; [|apply elem_of_range; lia].
    rewrite (proj2 (is_frontier_spec _ _ _ Hin) Hcell). apply list_elem_of_here.
Qed.

Section DetectionMore.
Context {F : Type}.
Implicit Types (self : ExplorerNode F) (m cm : ndarray) (fs : list Frontier).

(** The double loop computes a comprehension. *)
Lemma find_frontiers_closed_form self m cm fs :
  find_frontiers self m cm = Ok fs → fs = annotate cm <$> frontier_cells m.
Proof.
  rewrite find_frontiers_collect. intros Hfs.
  unfold frontier_cells. rewrite fmap_bind_list.
  apply (collect_bind _ _ _ _ Hfs).
  intros r ys Hr%elem_of_range Hys. simpl in Hys.
  rewrite fmap_bind_list. apply (collect_bind _ _ _ _ Hys).
  intros c ys' Hc%elem_of_range. unfold cell_result.
  destruct (is_frontier m r c); [|by intros [= <-]].
  destruct (getitem cm r c) as [cost|e] eqn:Ec; simpl; [|done].
  intros [= <-]. apply getitem_Ok in Ec as (_ & _ & ->); [done | lia..].
Qed.

(** X6. [find_frontiers] returns a list exactly when every frontier cell of
    the map is an index of the costmap, and the list is then the row-major
    comprehension of the map's frontier cells, each with the costmap's
    element at its index. *)
Theorem find_frontiers_comprehension self m cm fs :
  find_frontiers self m cm = Ok fs
  ↔ fs = annotate cm <$> frontier_cells m
    ∧ ∀ rc, rc ∈ frontier_cells m → rc.1 < shape0 cm ∧ rc.2 < shape1 cm.
Proof.
  split.
  - intros Hfs. split; [by eapply find_frontiers_closed_form|].
    intros [r c] Hcell%elem_of_frontier_cells. simpl.
    destruct (Z.lt_ge_cases r (shape0 cm)), (Z.lt_ge_cases c (shape1 cm));
      try done;
      rewrite (find_frontiers_Raise_intro self m cm r c Hcell) in Hfs;
      (done || lia).
  - intros [-> Hall].
    destruct (find_frontiers self m cm) as [fs|e] eqn:Efs.
    + f_equal. by eapply find_frontiers_closed_form.
    + apply find_frontiers_Raise in Efs as (_ & r & c & Hcell & Hout).
      apply elem_of_frontier_cells, Hall in Hcell. simpl in Hcell. lia.
Qed.

(** X7. Which cells are reported depends on the map alone: calls on the
    same map with any two nodes and any two costmaps report, when both
    return, the same cells in the same order. *)
Theorem find_frontiers_cells_of_map self1 self2 m cm1 cm2 fs1 fs2 :
  find_frontiers self1 m cm1 = Ok fs1 →
  find_frontiers self2 m cm2 = Ok fs2 →
  cell_of <$> fs1 = cell_of <$> fs2.
Proof.
  intros ->%find_frontiers_closed_form ->%find_frontiers_closed_form.
  rewrite <- !list_fmap_compose. apply list_fmap_ext. by intros i [r c].
Qed.

(** X8. [find_frontiers] returns the empty list exactly when the map has no
    frontier cell; in particular when no cell of the map is -1. *)
Theorem find_frontiers_empty_iff self m cm :
  (find_frontiers self m cm = Ok [] ↔ ∀ r c, ¬ frontier_cell m r c)
  ∧ ((∀ r c, getitem m r c ≠ Ok (-1)) → find_frontiers self m cm = Ok []).
Proof.
  assert (Hiff : find_frontiers self m cm = Ok [] ↔ ∀ r c, ¬ frontier_cell m r c).
  { split.
    - intros Hfs r c Hcell.
      destruct (getitem cm r c) as [v|e] eqn:Ev.
      + assert ((r, c, v) ∈ ([] : list Frontier)) as Hin%elem_of_nil; [|done].
        by apply (find_frontiers_elem_of _ _ _ _ (r, c, v) Hfs).
      + pose proof Hcell as [[Hr Hc] _].
        apply getitem_Raise in Ev as [_ Hout]; [|lia..].
        by rewrite (find_frontiers_Raise_intro self m cm r c Hcell Hout) in Hfs.
    - intros Hnone. destruct (find_frontiers self m cm) as [[|f fs]|e] eqn:Efs.
      + done.
      + assert (f ∈ f :: fs) as Hin by left.
        apply (find_frontiers_elem_of _ _ _ _ _ Efs) in Hin as [Hcell _].
        by apply Hnone in Hcell.
      + apply find_frontiers_Raise in Efs as (_ & r & c & Hcell & _).
        by apply Hnone in Hcell. }
  split; [done|]. intros Hknown. apply Hiff.
  intros r c (_ & _ & dr & dc & _ & _ & _ & Hunknown). by apply Hknown in Hunknown.
Qed.

(** X9. A map with fewer than 3 rows or fewer than 3 columns has no
    interior: [find_frontiers] returns the empty list, whatever the map and
    the costmap hold. *)
Theorem find_frontiers_small_map self m cm :
  shape0 m < 3 ∨ shape1 m < 3 → find_frontiers self m cm = Ok [].
Proof.
  intros Hsmall. rewrite find_frontiers_collect.
  destruct (Z.lt_ge_cases (shape0 m) 3) as [Hrows | Hrows].
  - unfold range at 2. by rewrite seqZ_nil by lia.
  - assert (shape1 m < 3) as Hcols by lia.
    assert (range 1 (shape1 m - 1) = []) as -> by (unfold range; apply seqZ_nil; lia).
    simpl. induction (range 1 (shape0 m - 1)) as [|r rs IH]; simpl; [done|].
    by rewrite IH.
Qed.


End DetectionMore.

Lemma find_frontiers_cells_of_map_witness :
  find_frontiers (@init Q) Scenario.small_array Scenario.small_array = Ok [(1, 1, 0)]
  ∧ find_frontiers Scenario.node_B Scenario.small_array Scenario.wide_array
    = Ok [(1, 1, 5)]
  ∧ cell_of <$> [(1, 1, 0)] = cell_of <$> [(1, 1, 5)].
Proof.
  split; [reflexivity|]. split; [reflexivity|].
  apply (find_frontiers_cells_of_map (@init Q) Scenario.node_B Scenario.small_array
           Scenario.small_array Scenario.wide_array); reflexivity.
Defined.

Lemma find_frontiers_small_map_witness :
  (shape0 Cases.thin_array < 3 ∨ shape1 Cases.thin_array < 3)
  ∧ find_frontiers (@init Q) Cases.thin_array Scenario.wide_array = Ok [].
Proof.
  split; [left; reflexivity|].
  apply (find_frontiers_small_map (@init Q) Cases.thin_array Scenario.wide_array).
  left. reflexivity.
Defined.


(** ** The tick and the event loop *)

Section TickMore.
Context {F : Type} `{PyFloat F}.
Implicit Types (self : ExplorerNode F) (fs : list Frontier) (f g : Frontier).

(** A tick either leaves the node alone and sends nothing, or chooses a
    frontier and sends one goal. *)
Lemma explore_outcome self :
  (∃ r, explore self = (self, [], r)
        ∧ (r = Ok () ∨ r = Raise ValueError ∨ r = Raise IndexError
           ∨ r = Raise AttributeError))
  ∨ (∃ map_msg costmap_msg m cm fs self' f,
       map_data self = Some map_msg ∧ costmap_data self = Some costmap_msg
       ∧ reshape (data map_msg) (info_height map_msg) (info_width map_msg) = Ok m
       ∧ reshape (data costmap_msg) (info_height costmap_msg)
           (info_width costmap_msg) = Ok cm
       ∧ find_frontiers self m cm = Ok fs
       ∧ choose_frontier self fs = (self', Some f)
       ∧ explore self
         = (self',
            [SendGoal
               (fadd (fmul (of_int (f_col f)) (info_resolution map_msg))
                     (info_origin_x map_msg))
               (fadd (fmul (of_int (f_row f)) (info_resolution map_msg))
                     (info_origin_y map_msg))],
            Ok ())).
Proof.
  assert (Hreshape : ∀ d h w e, reshape d h w = Raise e → e = ValueError).
  { intros d h w e. unfold reshape. case_match; [done | by intros [= <-]]. }
  destruct (map_data self) as [map_msg|] eqn:Hmap;
    [|left; exists (Ok ()); rewrite explore_not_ready; auto].
  destruct (costmap_data self) as [costmap_msg|] eqn:Hcost;
    [|left; exists (Ok ()); rewrite explore_not_ready; auto].
  destruct (reshape (data map_msg) (info_height map_msg) (info_width map_msg))
    as [m|e] eqn:Hm.
  2:{ left. exists (Raise e). unfold explore. rewrite Hmap, Hcost, Hm.
      apply Hreshape in Hm as ->. auto. }
  destruct (reshape (data costmap_msg) (info_height costmap_msg)
              (info_width costmap_msg)) as [cm|e] eqn:Hcm.
  2:{ left. exists (Raise e). unfold explore. rewrite Hmap, Hcost, Hm, Hcm.
      apply Hreshape in Hcm as ->. auto. }
  rewrite (explore_ready _ _ _ _ _ Hmap Hcost Hm Hcm).
  destruct (find_frontiers self m cm) as [[|f0 fs]|e] eqn:Hfs.
  - left. exists (Raise AttributeError). auto.
  - destruct (choose_frontier self (f0 :: fs)) as [self' [f|]] eqn:Hch.
    + right. exists map_msg, costmap_msg, m, cm, (f0 :: fs), self', f. done.
    + apply choose_frontier_None in Hch as [-> _]. left. exists (Ok ()). auto.
  - apply find_frontiers_Raise in Hfs as [-> _]. left.
    exists (Raise IndexError). auto.
Qed.

(** X11. Whatever the node holds, a tick sends at most one goal and nothing
    but goals, the visited set grows by exactly one entry per goal sent, and
    the stored map and costmap are not changed. *)
Theorem explore_goal_marks_visited self :
  (length (explore self).1.2 ≤ 1)%nat
  ∧ (∀ e, e ∈ (explore self).1.2 → is_goal e = true)
  ∧ size (visited_frontiers (explore self).1.1)
    = (size (visited_frontiers self) + length (explore self).1.2)%nat
  ∧ map_data (explore self).1.1 = map_data self
  ∧ costmap_data (explore self).1.1 = costmap_data self.
Proof.
  destruct (explore_outcome self) as
    [(r & -> & _) | (map_msg & costmap_msg & m & cm & fs & self' & f
                     & _ & _ & _ & _ & _ & Hch & ->)]; simpl.
  - split; [lia|]. split; [by intros e ?%elem_of_nil|]. split; [lia | done].
  - apply choose_frontier_Some in Hch as (_ & Hunv & _ & -> & -> & -> & _).
    split; [lia|]. split; [by intros e ->%list_elem_of_singleton|].
    split; [|done].
    rewrite size_union, size_singleton by (by apply disjoint_singleton_l). lia.
Qed.

(** X12. A tick that raises has changed nothing and sent nothing, and what
    it raises is a [ValueError], an [IndexError] or an [AttributeError]. *)
Theorem explore_raise_unchanged self e :
  (explore self).2 = Raise e →
  (explore self).1 = (self, [])
  ∧ (e = ValueError ∨ e = IndexError ∨ e = AttributeError).
Proof.
  destruct (explore_outcome self) as
    [(r & -> & Hr) | (map_msg & costmap_msg & m & cm & fs & self' & f
                      & _ & _ & _ & _ & _ & _ & ->)]; simpl; [|done].
  intros ->. split; [done|].
  destruct Hr as [Hr | [Hr | [Hr | Hr]]]; [done | injection Hr as <-; auto..].
Qed.

(** X13. A tick of a node that holds both grids raises [ValueError] exactly
    when the number of cells of the map, or of the costmap, is not its
    height times its width. *)
Theorem explore_ValueError_iff self map_msg costmap_msg :
  map_data self = Some map_msg → costmap_data self = Some costmap_msg →
  (explore self).2 = Raise ValueError
  ↔ Z.of_nat (length (data map_msg))
      ≠ Z.of_N (info_height map_msg) * Z.of_N (info_width map_msg)
    ∨ Z.of_nat (length (data costmap_msg))
      ≠ Z.of_N (info_height costmap_msg) * Z.of_N (info_width costmap_msg).
Proof.
  intros Hmap Hcost.
  destruct (reshape (data map_msg) (info_height map_msg) (info_width map_msg))
    as [m|e] eqn:Hm.
  2:{ unfold explore. rewrite Hmap, Hcost, Hm. unfold reshape in Hm.
      destruct (Z.eqb_spec (Z.of_nat (length (data map_msg)))
                  (Z.of_N (info_height map_msg) * Z.of_N (info_width map_msg)));
        [done|]. injection Hm as <-. simpl. split; auto. }
  destruct (reshape (data costmap_msg) (info_height costmap_msg)
              (info_width costmap_msg)) as [cm|e] eqn:Hcm.
  2:{ unfold explore. rewrite Hmap, Hcost, Hm, Hcm. unfold reshape in Hcm.
      destruct (Z.eqb_spec (Z.of_nat (length (data costmap_msg)))
                  (Z.of_N (info_height costmap_msg) * Z.of_N (info_width costmap_msg)));
        [done|]. injection Hcm as <-. simpl. split; auto. }
  rewrite (explore_ready _ _ _ _ _ Hmap Hcost Hm Hcm).
  unfold reshape in Hm, Hcm.
  destruct (Z.eqb_spec (Z.of_nat (length (data map_msg)))
              (Z.of_N (info_height map_msg) * Z.of_N (info_width map_msg)));
    [|done].
  destruct (Z.eqb_spec (Z.of_nat (length (data costmap_msg)))
              (Z.of_N (info_height costmap_msg) * Z.of_N (info_width costmap_msg)));
    [|done].
  split; [|intros [?|?]; done].
  destruct (find_frontiers self m cm) as [[|f0 fs]|e'] eqn:Hfs; simpl; [done| |].
  - by destruct (choose_frontier self (f0 :: fs)) as [self' [f|]].
  - apply find_frontiers_Raise in Hfs as [-> _]. done.
Qed.

(** X14. A goal is only ever sent for a frontier cell of the current map:
    when a tick sends a goal, its coordinates are those of an unvisited
    frontier [f] that detection found on the map, annotated with the
    costmap's value, that is now visited, and no unvisited frontier that
    detection found is cheaper. *)
Theorem explore_goal_targets_frontier self map_msg costmap_msg m cm x y :
  map_data self = Some map_msg → costmap_data self = Some costmap_msg →
  reshape (data map_msg) (info_height map_msg) (info_width map_msg) = Ok m →
  reshape (data costmap_msg) (info_height costmap_msg) (info_width costmap_msg) = Ok cm →
  (explore self).1.2 = [SendGoal x y] →
  ∃ f, frontier_cell m (f_row f) (f_col f)
       ∧ getitem cm (f_row f) (f_col f) = Ok (f_cost f)
       ∧ (f ∉ visited_frontiers self)
       ∧ visited_frontiers (explore self).1.1 = {[f]} ∪ visited_frontiers self
       ∧ x = fadd (fmul (of_int (f_col f)) (info_resolution map_msg))
                  (info_origin_x map_msg)
       ∧ y = fadd (fmul (of_int (f_row f)) (info_resolution map_msg))
                  (info_origin_y map_msg)
       ∧ ∀ g, frontier_cell m (f_row g) (f_col g) →
              getitem cm (f_row g) (f_col g) = Ok (f_cost g) →
              g ∉ visited_frontiers self → f_cost f ≤ f_cost g.
Proof.
  intros Hmap Hcost Hm Hcm. rewrite (explore_ready _ _ _ _ _ Hmap Hcost Hm Hcm).
  destruct (find_frontiers self m cm) as [[|f0 fs]|e] eqn:Hfs; simpl; [done| |done].
  destruct (choose_frontier self (f0 :: fs)) as [self' [f|]] eqn:Hch; simpl; [|done].
  intros [= <- <-]. exists f.
  apply choose_frontier_Some in Hch as (Hin & Hunv & Hmin & Hvis & _).
  apply (find_frontiers_elem_of _ _ _ _ _ Hfs) in Hin as [Hcell Hcostv].
  repeat (split; [done|]).
  intros g Hg Hgv Hgu. apply Hmin; [|done].
  by apply (find_frontiers_elem_of _ _ _ _ _ Hfs).
Qed.

(** X15. On a node that holds both grids and whose detection finds the
    frontiers [fs], a tick does nothing at all (no goal, no change, no
    exception) exactly when [fs] is not empty and all of it is visited. *)
Theorem explore_all_visited_iff self map_msg costmap_msg m cm fs :
  map_data self = Some map_msg → costmap_data self = Some costmap_msg →
  reshape (data map_msg) (info_height map_msg) (info_width map_msg) = Ok m →
  reshape (data costmap_msg) (info_height costmap_msg) (info_width costmap_msg) = Ok cm →
  find_frontiers self m cm = Ok fs →
  explore self = (self, [], Ok ())
  ↔ fs ≠ [] ∧ ∀ g, g ∈ fs → g ∈ visited_frontiers self.
Proof.
  intros Hmap Hcost Hm Hcm Hfs.
  rewrite (explore_ready _ _ _ _ _ Hmap Hcost Hm Hcm), Hfs.
  destruct fs as [|f0 fs]; [split; [done | by intros [? _]]|].
  destruct (choose_frontier self (f0 :: fs)) as [self' [f|]] eqn:Hch.
  - apply choose_frontier_Some in Hch as (Hin & Hunv & _).
    split; [done|]. intros [_ Hall]. by apply Hall in Hin.
  - apply choose_frontier_None in Hch as [-> Hall]. done.
Qed.



End TickMore.

Section TickBound.
Context {F : Type} `{PyFloat F}.
Implicit Types (self : ExplorerNode F) (fs : list Frontier).

Lemma size_unvisited_pick (f : Frontier) (pool V : gset Frontier) :
  f ∈ pool → f ∉ V → (1 + size (pool ∖ ({[f]} ∪ V)))%nat = size (pool ∖ V).
Proof.
  intros Hin Hunv.
  assert (pool ∖ ({[f]} ∪ V) = (pool ∖ V) ∖ {[f]}) as ->
    by (apply set_eq; intros x;
        rewrite !elem_of_difference, elem_of_union, elem_of_singleton; tauto).
  assert (f ∈ pool ∖ V) as Hf by (by apply elem_of_difference).
  rewrite size_difference, size_singleton by (by apply singleton_subseteq_l).
  assert (size (pool ∖ V) ≠ 0)%nat; [|lia].
  intros Hz%size_empty_iff. apply Hz in Hf. by apply elem_of_empty in Hf.
Qed.

Lemma ticks_goals_le (map_msg costmap_msg : OccupancyGrid F) (m cm : ndarray)
    (fs : list Frontier) (pool : gset Frontier) (n : nat) (self : ExplorerNode F) :
  map_data self = Some map_msg → costmap_data self = Some costmap_msg →
  reshape (data map_msg) (info_height map_msg) (info_width map_msg) = Ok m →
  reshape (data costmap_msg) (info_height costmap_msg) (info_width costmap_msg) = Ok cm →
  find_frontiers self m cm = Ok fs →
  (∀ f, f ∈ fs → f ∈ pool) →
  (length (spin self (replicate n TimerTick)).1.2
   ≤ size (pool ∖ visited_frontiers self))%nat.
Proof.
  intros Hmap Hcost Hm Hcm Hfs HS. revert self Hmap Hcost Hfs.
  induction n as [|n IH]; intros self Hmap Hcost Hfs; simpl; [lia|].
  rewrite (explore_ready _ _ _ _ _ Hmap Hcost Hm Hcm), Hfs.
  destruct fs as [|f0 fs]; simpl; [lia|].
  destruct (choose_frontier self (f0 :: fs)) as [self' [f|]] eqn:Hch; simpl.
  - apply choose_frontier_Some in Hch as (Hin & Hunv & _ & Hvis & Hmap' & Hcost' & _).
    specialize (IH self').
    destruct (spin self' (replicate n TimerTick)) as [[self'' effs'] r]. simpl in *.
    rewrite <- (size_unvisited_pick f pool _ (HS f Hin) Hunv), <- Hvis.
    apply le_n_S, IH; [congruence.. |].
    by rewrite find_frontiers_collect, <- (find_frontiers_collect self).
  - apply choose_frontier_None in Hch as [-> _]. specialize (IH self Hmap Hcost Hfs).
    by destruct (spin self (replicate n TimerTick)) as [[self'' effs'] r].
Qed.

(** X17. While the map and the costmap stay the same, the node sends at
    most one goal per frontier that detection finds on them, however many
    timer ticks there are. *)
Theorem ticks_goals_bounded self map_msg costmap_msg m cm fs n :
  map_data self = Some map_msg → costmap_data self = Some costmap_msg →
  reshape (data map_msg) (info_height map_msg) (info_width map_msg) = Ok m →
  reshape (data costmap_msg) (info_height costmap_msg) (info_width costmap_msg) = Ok cm →
  find_frontiers self m cm = Ok fs →
  (length (spin self (replicate n TimerTick)).1.2 ≤ length fs)%nat.
Proof.
  intros Hmap Hcost Hm Hcm Hfs.
  pose proof (ticks_goals_le _ _ _ _ _ (list_to_set fs) n _ Hmap Hcost Hm Hcm Hfs
                (λ f Hf, proj2 (elem_of_list_to_set f fs) Hf)).
  pose proof (size_list_to_set_le fs).
  assert (size (list_to_set fs ∖ visited_frontiers self : gset Frontier)
          ≤ size (list_to_set fs : gset Frontier))%nat
    by (apply subseteq_size, subseteq_difference_l; done).
  lia.
Qed.

End TickBound.

Lemma explore_raise_unchanged_witness :
  (explore Scenario.node_small_costmap).2 = Raise IndexError
  ∧ (explore Scenario.node_small_costmap).1 = (Scenario.node_small_costmap, [])
  ∧ (IndexError = ValueError ∨ IndexError = IndexError
     ∨ IndexError = AttributeError).
Proof.
  split; [reflexivity|].
  apply (explore_raise_unchanged Scenario.node_small_costmap IndexError).
  reflexivity.
Defined.

Lemma explore_ValueError_iff_witness :
  map_data Cases.node_short_data = Some (Scenario.grid 5 5 [0; 0; 0])
  ∧ costmap_data Cases.node_short_data = Some (Scenario.grid 5 5 Scenario.free_cells)
  ∧ ((explore Cases.node_short_data).2 = Raise ValueError
     ↔ Z.of_nat (length [0; 0; 0]) ≠ Z.of_N 5 * Z.of_N 5
       ∨ Z.of_nat (length Scenario.free_cells) ≠ Z.of_N 5 * Z.of_N 5).
Proof.
  split; [reflexivity|]. split; [reflexivity|].
  apply (explore_ValueError_iff Cases.node_short_data
           (Scenario.grid 5 5 [0; 0; 0])
           (Scenario.grid 5 5 Scenario.free_cells)); reflexivity.
Defined.

Lemma explore_goal_targets_frontier_witness :
  (explore Scenario.node_B).1.2 = [SendGoal (3 * 0.05 + - 1)%Q (3 * 0.05 + - 1)%Q]
  ∧ ∃ f, frontier_cell Scenario.map_array (f_row f) (f_col f)
       ∧ getitem Scenario.costmap_array (f_row f) (f_col f) = Ok (f_cost f)
       ∧ (f ∉ visited_frontiers Scenario.node_B)
       ∧ visited_frontiers (explore Scenario.node_B).1.1
         = {[f]} ∪ visited_frontiers Scenario.node_B
       ∧ (3 * 0.05 + - 1)%Q = (inject_Z (f_col f) * 0.05 + - 1)%Q
       ∧ (3 * 0.05 + - 1)%Q = (inject_Z (f_row f) * 0.05 + - 1)%Q
       ∧ ∀ g, frontier_cell Scenario.map_array (f_row g) (f_col g) →
              getitem Scenario.costmap_array (f_row g) (f_col g) = Ok (f_cost g) →
              g ∉ visited_frontiers Scenario.node_B → f_cost f ≤ f_cost g.
Proof.
  split; [reflexivity|].
  exact (explore_goal_targets_frontier Scenario.node_B
           (Scenario.grid 5 5 Scenario.map_cells)
           (Scenario.grid 5 5 Scenario.free_cells)
           Scenario.map_array Scenario.costmap_array
           (3 * 0.05 + - 1)%Q (3 * 0.05 + - 1)%Q
           eq_refl eq_refl eq_refl eq_refl eq_refl).
Defined.

Lemma explore_all_visited_iff_witness :
  find_frontiers Cases.node_all_visited Scenario.map_array Scenario.costmap_array
  = Ok Scenario.frontiers
  ∧ (explore Cases.node_all_visited = (Cases.node_all_visited, [], Ok ())
     ↔ Scenario.frontiers ≠ []
       ∧ ∀ g, g ∈ Scenario.frontiers → g ∈ visited_frontiers Cases.node_all_visited).
Proof.
  split; [reflexivity|].
  apply (explore_all_visited_iff Cases.node_all_visited
           (Scenario.grid 5 5 Scenario.map_cells)
           (Scenario.grid 5 5 Scenario.free_cells)
           Scenario.map_array Scenario.costmap_array); reflexivity.
Defined.

Lemma ticks_goals_bounded_witness :
  find_frontiers Scenario.node_B Scenario.map_array Scenario.costmap_array
  = Ok Scenario.frontiers
  ∧ (length (spin Scenario.node_B (replicate 20 TimerTick)).1.2
     ≤ length Scenario.frontiers)%nat.
Proof.
  split; [reflexivity|].
  apply (ticks_goals_bounded Scenario.node_B
           (Scenario.grid 5 5 Scenario.map_cells)
           (Scenario.grid 5 5 Scenario.free_cells)
           Scenario.map_array Scenario.costmap_array); reflexivity.
Defined.
